(** * s3-file-server: seekable encrypted range streaming

    A shallow embedding of the repository's Go sources:

    - [xorReader] / [xorWriter]    (the repeating-key stream),
    - [NewCTRReader] / [ctrReader] / [NewCTRWriter] / [ctrWriter]
                                   (the counter-mode stream),
    - [ServeXORFile] / [ServeCTRFile] (the two HTTP handlers).

    Bytes are integers in [0, 256); Go's [int64] and [uint64] are [Z] with the
    wrap-around written out; a Go panic is the [Panic] result. *)

From Stdlib Require Import String Ascii DecimalString.
From Stdlib Require Import ZArith List Bool Lia.
Import ListNotations.
Local Open Scope Z_scope.

(** ** Machine integers *)

Module Int64.
Definition modulus : Z := 2 ^ 64.
Definition max : Z := 2 ^ 63 - 1.
Definition min : Z := - 2 ^ 63.

(** Two's-complement wrap of a mathematical integer into [int64]. *)
Definition wrap (z : Z) : Z := (z + 2 ^ 63) mod modulus - 2 ^ 63.

(** Wrap of a mathematical integer into [uint64]; also the conversion
    [uint64(x)] of an [int64] [x]. *)
Definition uwrap (z : Z) : Z := z mod modulus.

Definition in_range (z : Z) : Prop := min <= z <= max.

Definition add (a b : Z) : Z := wrap (a + b).
Definition sub (a b : Z) : Z := wrap (a - b).
Definition uadd (a b : Z) : Z := uwrap (a + b).

End Int64.

(** ** Results of code that may panic *)

Inductive panic : Type :=
| DivideByZero                       (* integer divide by zero *)
| IndexOutOfRange (idx len : Z)      (* index out of range [idx] with length [len] *)
| SliceBounds                        (* slice bounds out of range *)
| IVLength.                          (* cipher.NewCTR: IV length must equal block size *)

Inductive result (A : Type) : Type :=
| Ok (a : A)
| Panic (e : panic).
Arguments Ok {A} a.
Arguments Panic {A} e.

Definition rbind {A B} (m : result A) (k : A -> result B) : result B :=
  match m with
  | Ok a => k a
  | Panic e => Panic e
  end.

Notation "x <- m ;; k" := (rbind m (fun x => k))
  (at level 61, m at next level, right associativity).
Notation "' pat <- m ;; k" := (rbind m (fun x => match x with pat => k end))
  (at level 61, pat pattern, m at next level, right associativity).

(** ** io.Reader over a finite byte source

    [pending] lists the chunks the source hands out, one per [Read] call; a
    chunk that does not fit the caller's buffer is split.  After the last
    chunk [Read] returns [0, io.EOF]. *)

Record Reader : Type := { pending : list (list Z) }.

(** The outcome of one [Read(p)]: the count [n], whether [err] is [io.EOF],
    the buffer [p] after the call, and the reader after the call. *)
Record ReadResult (R : Type) : Type := mkRead {
  rr_n : nat;
  rr_eof : bool;
  rr_buf : list Z;
  rr_next : R
}.
Arguments mkRead {R}.
Arguments rr_n {R}.
Arguments rr_eof {R}.
Arguments rr_buf {R}.
Arguments rr_next {R}.

Class IOReader (R : Type) : Type := { Read : R -> list Z -> result (ReadResult R) }.

Definition Reader_Read (r : Reader) (p : list Z) : ReadResult Reader :=
  match pending r with
  | [] => mkRead 0%nat true p r
  | c :: cs =>
      let n := Nat.min (length c) (length p) in
      mkRead n false (firstn n c ++ skipn n p)
        {| pending := if (length c <=? length p)%nat then cs else skipn n c :: cs |}
  end.

#[global] Instance Reader_IOReader : IOReader Reader :=
  {| Read := fun r p => Ok (Reader_Read r p) |}.

(** io.Copy: read into one buffer until an error, appending the [n] bytes of
    each call to what was written.  [fuel] bounds the number of [Read] calls. *)

Inductive CopyResult : Type :=
| Copied (written : list Z)               (* source reached io.EOF *)
| Panicked (written : list Z) (e : panic) (* a Read panicked *)
| Unfinished (written : list Z).          (* more calls than [fuel] *)

Fixpoint copy_loop {R} `{IOReader R} (fuel : nat) (src : R) (buf written : list Z)
  : CopyResult :=
  match fuel with
  | O => Unfinished written
  | S fuel' =>
      match Read src buf with
      | Panic e => Panicked written e
      | Ok rd =>
          let written' := written ++ firstn (rr_n rd) (rr_buf rd) in
          if rr_eof rd then Copied written'
          else copy_loop fuel' (rr_next rd) (rr_buf rd) written'
      end
  end.

(** The number of [Read] calls that drains a source: one per chunk or buffer
    full, and the last one that returns io.EOF. *)
Definition calls (chunks : list (list Z)) : nat :=
  S (fold_right (fun c acc => S (length c + acc)) O chunks).

(** ** The repeating-key stream (xor.go) *)

Module Xor.

Record xorReader : Type := {
  reader : Reader;
  key : string;
  offset : Z
}.

Definition NewXorReader (reader : Reader) (key : string) (offset : Z) : xorReader :=
  {| reader := reader; key := key; offset := offset |}.

(** [key[idx]] on a Go string: the byte at [idx], or a panic. *)
Definition key_at (key : string) (idx : Z) : result Z :=
  if idx <? 0 then Panic (IndexOutOfRange idx (Z.of_nat (String.length key)))
  else match String.get (Z.to_nat idx) key with
       | Some c => Ok (Z.of_N (N_of_ascii c))
       | None => Panic (IndexOutOfRange idx (Z.of_nat (String.length key)))
       end.

(** Go's [%] on [int64]: truncated remainder; a zero divisor panics. *)
Definition rem64 (a b : Z) : result Z :=
  if b =? 0 then Panic DivideByZero else Ok (Z.rem a b).

(** The loop [for i := int64(0); i < n2; i++ { p[i] ^= key[(offset+i)%keyLen] }]
    over [p[i:n2]]. *)
Fixpoint xor_loop (key : string) (offset i : Z) (p : list Z) : result (list Z) :=
  match p with
  | [] => Ok []
  | b :: rest =>
      idx <- rem64 (Int64.add offset i) (Z.of_nat (String.length key)) ;;
      k <- key_at key idx ;;
      rest' <- xor_loop key offset (i + 1) rest ;;
      Ok (Z.lxor b k :: rest')
  end.

Definition xorReader_Read (r : xorReader) (p : list Z) : result (ReadResult xorReader) :=
  let rd := Reader_Read (reader r) p in
  let n := rr_n rd in
  q <- xor_loop (key r) (offset r) 0 (firstn n (rr_buf rd)) ;;
  Ok (mkRead n (rr_eof rd) (q ++ skipn n (rr_buf rd))
        {| reader := rr_next rd; key := key r;
           offset := Int64.add (offset r) (Z.of_nat n) |}).

#[global] Instance xorReader_IOReader : IOReader xorReader :=
  {| Read := xorReader_Read |}.

(** The writer; the underlying io.Writer is the list of bytes written so far. *)
Record xorWriter : Type := {
  writer : list Z;
  wkey : string;
  woffset : Z
}.

Definition NewXorWriter (writer : list Z) (key : string) : xorWriter :=
  {| writer := writer; wkey := key; woffset := 0 |}.

(** [Write(p)] transforms the caller's [p] in place and forwards it; the
    result carries [n], the caller's buffer after the call and the writer. *)
Definition xorWriter_Write (w : xorWriter) (p : list Z)
  : result (nat * list Z * xorWriter) :=
  q <- xor_loop (wkey w) (woffset w) 0 p ;;
  Ok (length q, q,
      {| writer := writer w ++ q; wkey := wkey w;
         woffset := Int64.add (woffset w) (Z.of_nat (length p)) |}).

(** The contract of the repeating-key stream, in its own words: the keystream
    byte at absolute position [pos] is [K[pos mod L]], and the transform is a
    byte-wise exclusive or against it. *)
Definition key_byte (key : string) (j : Z) : Z :=
  match String.get (Z.to_nat j) key with
  | Some c => Z.of_N (N_of_ascii c)
  | None => 0
  end.

Definition keystream_byte (key : string) (pos : Z) : Z :=
  key_byte key (pos mod Z.of_nat (String.length key)).

Fixpoint xor_stream (key : string) (pos : Z) (p : list Z) : list Z :=
  match p with
  | [] => []
  | x :: rest => Z.lxor x (keystream_byte key pos) :: xor_stream key (pos + 1) rest
  end.

End Xor.

(** ** The counter-mode stream (ctr.go) *)

Module Ctr.

(** aes.BlockSize *)
Definition BlockSize : Z := 16.

(** A cipher.Block is its [Encrypt] on one block. *)
Definition Block : Type := list Z -> list Z.

(** binary.BigEndian.Uint64: the big-endian value of a byte sequence. *)
Definition be_value (bs : list Z) : Z :=
  fold_left (fun acc b => acc * 256 + b) bs 0.

(** binary.BigEndian.PutUint64, for [n = 8]: the [n] big-endian bytes of [v]. *)
Fixpoint be_bytes (n : nat) (v : Z) : list Z :=
  match n with
  | O => []
  | S n' => be_bytes n' (v / 256) ++ [v mod 256]
  end.

(** crypto/cipher's CTR stream.  [ctr] is the counter of the block in use and
    [outUsed] the number of its keystream bytes already consumed.  The
    keystream is Encrypt(ctr) followed by Encrypt(ctr+1) and so on, where the
    whole counter block is incremented as one big-endian integer. *)
Record ctrStream : Type := {
  b : Block;
  ctr : list Z;
  outUsed : nat
}.

(** The library's increment, on the counter read from its last byte:
    [x.ctr[i]++; if x.ctr[i] != 0 { break }]. *)
Fixpoint incr_from_last (l : list Z) : list Z :=
  match l with
  | [] => []
  | x :: t =>
      let x' := (x + 1) mod 256 in
      if x' =? 0 then x' :: incr_from_last t else x' :: t
  end.

Definition increment (ctr : list Z) : list Z := rev (incr_from_last (rev ctr)).

Definition NewCTR (block : Block) (iv : list Z) : result ctrStream :=
  if (Z.of_nat (length iv) =? BlockSize)
  then Ok {| b := block; ctr := iv; outUsed := 0 |}
  else Panic IVLength.

(** The next keystream byte and the stream after it. *)
Definition next_byte (x : ctrStream) : Z * ctrStream :=
  let k := nth (outUsed x) (b x (ctr x)) 0 in
  if (Z.of_nat (S (outUsed x)) <? BlockSize)
  then (k, {| b := b x; ctr := ctr x; outUsed := S (outUsed x) |})
  else (k, {| b := b x; ctr := increment (ctr x); outUsed := 0 |}).

(** [XORKeyStream(dst, src)]: returns [dst] and the stream after the call. *)
Fixpoint XORKeyStream (x : ctrStream) (src : list Z) : list Z * ctrStream :=
  match src with
  | [] => ([], x)
  | s :: rest =>
      let (k, x1) := next_byte x in
      let (dst, x2) := XORKeyStream x1 rest in
      (Z.lxor s k :: dst, x2)
  end.

Record ctrReader : Type := {
  stream : ctrStream;
  reader : Reader;
  iv : list Z     (* the caller's slice: its contents after the call *)
}.

(** [iv[len(iv)-8:]] panics when the slice is shorter than 8 bytes. *)
Definition NewCTRReader (reader : Reader) (block : Block) (iv : list Z) (offset : Z)
  : result ctrReader :=
  if (length iv <? 8)%nat then Panic SliceBounds else
  let hi := firstn (length iv - 8) iv in
  let lo := skipn (length iv - 8) iv in
  let counter := be_value lo in
  let counter := Int64.uadd counter (Int64.uwrap (Z.quot offset BlockSize)) in
  let iv := hi ++ be_bytes 8 counter in
  stream <- NewCTR block iv ;;
  let offsetWithinBlock := Z.rem offset BlockSize in
  let stream :=
    if offsetWithinBlock >? 0
    then snd (XORKeyStream stream (repeat 0 (Z.to_nat offsetWithinBlock)))
    else stream in
  Ok {| stream := stream; reader := reader; iv := iv |}.

Definition ctrReader_Read (r : ctrReader) (p : list Z) : result (ReadResult ctrReader) :=
  let rd := Reader_Read (reader r) p in
  let n := rr_n rd in
  let (q, stream') := XORKeyStream (stream r) (firstn n (rr_buf rd)) in
  Ok (mkRead n (rr_eof rd) (q ++ skipn n (rr_buf rd))
        {| stream := stream'; reader := rr_next rd; iv := iv r |}).

#[global] Instance ctrReader_IOReader : IOReader ctrReader :=
  {| Read := ctrReader_Read |}.

(** The writer; the underlying io.Writer is the list of bytes written so far. *)
Record ctrWriter : Type := {
  wstream : ctrStream;
  writer : list Z
}.

(** [rnd] is what [rand.Reader] delivers to [io.ReadFull(rand.Reader, iv)]:
    the random bytes, or [None] for a failing source; fewer than a block is
    the error of a short read.  The result is [None] for the returned error. *)
Definition NewCTRWriter (writer : list Z) (block : Block) (rnd : option (list Z))
  : result (option (ctrWriter * list Z)) :=
  match rnd with
  | None => Ok None
  | Some bytes =>
      if (length bytes <? Z.to_nat BlockSize)%nat then Ok None else
      let iv := firstn (Z.to_nat BlockSize) bytes in
      stream <- NewCTR block iv ;;
      Ok (Some ({| wstream := stream; writer := writer ++ iv |}, iv))
  end.

Definition ctrWriter_Write (w : ctrWriter) (p : list Z) : nat * ctrWriter :=
  let (cipher, stream') := XORKeyStream (wstream w) p in
  (length cipher, {| wstream := stream'; writer := writer w ++ cipher |}).

(** Successive [Write] calls, one per chunk. *)
Definition write_all (w : ctrWriter) (chunks : list (list Z)) : ctrWriter :=
  fold_left (fun w p => snd (ctrWriter_Write w p)) chunks w.

(** The contract of the counter-mode stream, in its own words: the keystream
    at absolute byte position [pos] of a stream seeded with the counter block
    [c] is byte [pos mod 16] of the encryption of the counter at block index
    [pos / 16]. *)
Definition counter_at (c : list Z) (blockIndex : nat) : list Z :=
  Nat.iter blockIndex increment c.

Definition keystream_byte (block : Block) (c : list Z) (pos : nat) : Z :=
  nth (pos mod 16) (block (counter_at c (pos / 16))) 0.

Fixpoint xor_keystream (block : Block) (c : list Z) (pos : nat) (src : list Z) : list Z :=
  match src with
  | [] => []
  | s :: rest => Z.lxor s (keystream_byte block c pos) :: xor_keystream block c (S pos) rest
  end.

(** The stream seeded with [c] after [pos] keystream bytes. *)
Definition stream_at (block : Block) (c : list Z) (pos : nat) : ctrStream :=
  {| b := block; ctr := counter_at c (pos / 16); outUsed := (pos mod 16)%nat |}.

Definition is_byte (x : Z) : Prop := 0 <= x < 256.

(** The counter block step 1 of the seek derivation describes: the high bytes
    of the IV unchanged, the low 64 bits plus the block index modulo 2^64. *)
Definition seek_counter (iv : list Z) (offset : Z) : list Z :=
  firstn 8 iv ++ be_bytes 8 ((be_value (skipn 8 iv) + offset / BlockSize) mod 2 ^ 64).

(** What a reader constructed at [offset] yields for the bytes [ct], read to
    io.EOF through a buffer [buf]. *)
Definition read_from (block : Block) (iv : list Z) (offset : Z)
  (chunks : list (list Z)) (buf : list Z) : result CopyResult :=
  r <- NewCTRReader {| pending := chunks |} block iv offset ;;
  Ok (copy_loop (calls chunks) r buf []).

(** An IV whose low 64 bits are all ones, so that the step to the next block
    carries out of them; the counter NewCTRReader derives from it one block
    on, and the counter the sequential stream reaches there. *)
Definition carry_iv : list Z := repeat 0 8 ++ repeat 255 8.
Definition carry_seek_counter : list Z := repeat 0 16.
Definition carry_next_counter : list Z := repeat 0 7 ++ [1] ++ repeat 0 8.

(** Two counter blocks whose encryptions differ in some byte, as those of any
    two distinct blocks do under a block cipher. *)
Definition encrypts_apart (block : Block) (c1 c2 : list Z) : Prop :=
  exists i, (i < 16)%nat /\ nth i (block c1) 0 <> nth i (block c2) 0.

End Ctr.

(** ** The HTTP handlers (main.go) *)

Module Http.

(** *** Library functions the handlers call *)

(** strings.TrimPrefix *)
Fixpoint strip_prefix (prefix s : string) : option string :=
  match prefix, s with
  | EmptyString, _ => Some s
  | String a p', String c s' => if Ascii.eqb a c then strip_prefix p' s' else None
  | String _ _, EmptyString => None
  end.

Definition TrimPrefix (s prefix : string) : string :=
  match strip_prefix prefix s with
  | Some rest => rest
  | None => s
  end.

(** strings.Split with a one-byte separator. *)
Fixpoint Split (s : string) (sep : ascii) : list string :=
  match s with
  | EmptyString => [EmptyString]
  | String c rest =>
      if Ascii.eqb c sep then EmptyString :: Split rest sep
      else match Split rest sep with
           | [] => [String c EmptyString]
           | x :: xs => String c x :: xs
           end
  end.

Inductive NumError : Type := NoError | ErrSyntax | ErrRange.

Definition digit_of (c : ascii) : option Z :=
  let n := Z.of_N (N_of_ascii c) in
  if (48 <=? n) && (n <=? 57) then Some (n - 48) else None.

Definition maxUint64 : Z := 2 ^ 64 - 1.

(** The digit loop of strconv.ParseUint(s, 10, 64), with [n] the value so far. *)
Fixpoint parse_digits (s : string) (n : Z) : Z * NumError :=
  match s with
  | EmptyString => (n, NoError)
  | String c rest =>
      match digit_of c with
      | None => (0, ErrSyntax)
      | Some d =>
          if n >=? maxUint64 / 10 + 1 then (maxUint64, ErrRange)
          else
            let n1 := n * 10 + d in
            if n1 >? maxUint64 then (maxUint64, ErrRange)
            else parse_digits rest n1
      end
  end.

Definition ParseUint (s : string) : Z * NumError :=
  match s with
  | EmptyString => (0, ErrSyntax)
  | _ => parse_digits s 0
  end.

(** strconv.ParseInt(s, 10, 64) *)
Definition ParseInt (s : string) : Z * NumError :=
  match s with
  | EmptyString => (0, ErrSyntax)
  | String c rest =>
      let neg := Ascii.eqb c "-" in
      let s' := if Ascii.eqb c "+" || neg then rest else s in
      let (un, err) := ParseUint s' in
      match err with
      | ErrSyntax => (0, ErrSyntax)
      | _ =>
          let cutoff := 2 ^ 63 in
          if negb neg && (un >=? cutoff) then (cutoff - 1, ErrRange)
          else if neg && (un >? cutoff) then (- cutoff, ErrRange)
          else (if neg then - un else un, NoError)
      end
  end.

(** The verb [%d] of fmt.Sprintf. *)
Definition fmt_d (z : Z) : string := NilZero.string_of_int (Z.to_int z).

(** *** The blob store *)

Inductive s3error : Type :=
| NotFound
| OtherError (msg : string).

Record HeadObjectOutput : Type := {
  ContentLength : Z;
  ContentType : string;
  LastModified : Z
}.

Record GetObjectOutput : Type := {
  Body : Reader;
  ETag : string;
  gLastModified : Z
}.

(** What the remote store answers to each call. *)
Record S3Client : Type := {
  HeadObject : string -> s3error + HeadObjectOutput;
  GetRangeObject : string -> string -> s3error + GetObjectOutput
}.

Inductive S3Call : Type :=
| CallHeadObject (objectKey : string)
| CallGetRangeObject (objectKey requestedRange : string).

Definition error_text (e : s3error) : string :=
  match e with
  | NotFound => "NotFound"
  | OtherError msg => msg
  end.

(** *** Requests and responses *)

(** [r.Header.Get] returns the empty string for an absent header. *)
Record Request : Type := {
  URLPath : string;
  IfModifiedSince : string;
  Range : string;
  IfUnmodifiedSince : string
}.

Inductive ResponseBody : Type :=
| NoBody
| Text (s : string)
| Streamed (c : CopyResult)
| Aborted (e : panic).      (* the handler panicked before writing anything *)

Record Response : Type := {
  status : Z;
  header : list (string * string);
  body : ResponseBody
}.

Definition StatusOK : Z := 200.
Definition StatusPartialContent : Z := 206.
Definition StatusNotModified : Z := 304.
Definition StatusBadRequest : Z := 400.
Definition StatusNotFound : Z := 404.
Definition StatusPreconditionFailed : Z := 412.
Definition StatusRequestedRangeNotSatisfiable : Z := 416.
Definition StatusInternalServerError : Z := 500.

Definition WriteHeader (code : Z) : Response :=
  {| status := code; header := []; body := NoBody |}.

(** http.Error *)
Definition http_Error (msg : string) (code : Z) : Response :=
  {| status := code;
     header := [("Content-Type", "text/plain; charset=utf-8");
                ("X-Content-Type-Options", "nosniff")]%string;
     body := Text (msg ++ String (ascii_of_nat 10) EmptyString) |}.

(** *** Handler computations

    A handler threads the log of the store calls it has issued and either
    returns early with the response it wrote or goes on with a value. *)

Definition Handler (A : Type) : Type := list S3Call -> list S3Call * (Response + A).

Definition hret {A} (a : A) : Handler A := fun log => (log, inr a).

Definition hbind {A B} (m : Handler A) (k : A -> Handler B) : Handler B :=
  fun log =>
    match m log with
    | (log', inl resp) => (log', inl resp)
    | (log', inr a) => k a log'
    end.

Definition respond {A} (resp : Response) : Handler A := fun log => (log, inl resp).

Definition callHeadObject (c : S3Client) (objectKey : string)
  : Handler (s3error + HeadObjectOutput) :=
  fun log => (log ++ [CallHeadObject objectKey], inr (HeadObject c objectKey)).

Definition callGetRangeObject (c : S3Client) (objectKey requestedRange : string)
  : Handler (s3error + GetObjectOutput) :=
  fun log => (log ++ [CallGetRangeObject objectKey requestedRange],
              inr (GetRangeObject c objectKey requestedRange)).

(** An early [return] after the response has been written. *)
Definition guard (stop : option Response) : Handler unit :=
  match stop with
  | Some resp => respond resp
  | None => hret tt
  end.

Definition run (m : Handler Response) : list S3Call * Response :=
  match m [] with
  | (log, inl resp) => (log, resp)
  | (log, inr resp) => (log, resp)
  end.

Notation "x <~ m ;; k" := (hbind m (fun x => k))
  (at level 61, m at next level, right associativity).

(** io.ReadFull on a finite source: [n] bytes, or the error of a short read. *)
Definition ReadFull (r : Reader) (n : nat) : option (list Z) :=
  let data := concat (pending r) in
  if (length data <? n)%nat then None else Some (firstn n data).

(** The buffer size of io.Copy. *)
Definition copyBufferSize : nat := 32 * 1024.

Definition Copy {R} `{IOReader R} (src : R) (chunks : list (list Z)) : CopyResult :=
  copy_loop (calls chunks) src (repeat 0 copyBufferSize) [].

Record HTTPFileServer : Type := {
  s3Client : S3Client;
  xorKey : string;
  cipherBlock : Ctr.Block
}.

Section Handlers.

(** [time.Parse(http.TimeFormat, s)], [None] for its error, and
    [t.Format(http.TimeFormat)]; instants are integers. *)
Variable ParseTime : string -> option Z.
Variable FormatTime : Z -> string.

(** main.go 87-99 and 197-209: the response that ends the request, if any. *)
Definition ifModifiedSince_check (r : Request) (headObj : HeadObjectOutput)
  : option Response :=
  let ifModifiedSince := IfModifiedSince r in
  if String.eqb ifModifiedSince "" then None else
  match ParseTime ifModifiedSince with
  | None => Some (http_Error "invalid If-Modified-Since header" StatusBadRequest)
  | Some parseTime =>
      if negb (LastModified headObj >? parseTime)
      then Some (WriteHeader StatusNotModified)
      else None
  end.

(** main.go 136-148 and 260-272: the response that ends the request, if any. *)
Definition ifUnmodifiedSince_check (r : Request) (getObj : GetObjectOutput)
  : option Response :=
  let ifUnmodifiedSince := IfUnmodifiedSince r in
  if String.eqb ifUnmodifiedSince "" then None else
  match ParseTime ifUnmodifiedSince with
  | None => Some (http_Error "invalid If-Unmodified-Since header" StatusBadRequest)
  | Some parseTime =>
      if negb (gLastModified getObj <? parseTime)
      then Some (WriteHeader StatusPreconditionFailed)
      else None
  end.

(** main.go 101-121: [start], [end] and [isPartial] of ServeXORFile. *)
Definition xor_range (fileSize : Z) (requestedRange : string) : Z * Z * bool :=
  let start := 0 in
  let end_ := Int64.sub fileSize 1 in
  if String.eqb requestedRange "" then (start, end_, false) else
  let rangeParts := Split (TrimPrefix requestedRange "bytes=") "-" in
  if (length rangeParts =? 2)%nat then
    let start := fst (ParseInt (nth 0 rangeParts EmptyString)) in
    let start := if start <? 0 then 0 else start in
    let end_ := fst (ParseInt (nth 1 rangeParts EmptyString)) in
    let end_ := if (end_ =? 0) || (end_ >? fileSize) then Int64.sub fileSize 1 else end_ in
    (start, end_, true)
  else (start, end_, true).

(** main.go 225-245: [start], [end] and [isPartial] of ServeCTRFile. *)
Definition ctr_range (realFileSize : Z) (requestedRange : string) : Z * Z * bool :=
  let start := 0 in
  let end_ := Int64.sub realFileSize 1 in
  if String.eqb requestedRange "" then (start, end_, false) else
  let rangeParts := Split (TrimPrefix requestedRange "bytes=") "-" in
  if (length rangeParts =? 2)%nat then
    let start := fst (ParseInt (nth 0 rangeParts EmptyString)) in
    let start := if start <? 0 then 0 else start in
    let end_ := fst (ParseInt (nth 1 rangeParts EmptyString)) in
    let end_ := if (end_ =? 0) || (end_ >=? realFileSize)
                then Int64.sub realFileSize 1 else end_ in
    (start, end_, true)
  else (start, end_, true).

(** main.go 153-169 and 280-296: the headers and the status of a served file. *)
Definition served (headObj : HeadObjectOutput) (getObj : GetObjectOutput)
  (start end_ logicalSize : Z) (isPartial : bool) (c : CopyResult) : Response :=
  let contentLength := Int64.add (Int64.sub end_ start) 1 in
  let h := [("Accept-Ranges", "bytes");
            ("Content-Type", ContentType headObj);
            ("Content-Length", fmt_d contentLength);
            ("ETag", ETag getObj);
            ("Last-Modified", FormatTime (gLastModified getObj))]%string in
  if isPartial
  then {| status := StatusPartialContent;
          header := h ++ [("Content-Range",
                           "bytes " ++ fmt_d start ++ "-" ++ fmt_d end_
                             ++ "/" ++ fmt_d logicalSize)]%string;
          body := Streamed c |}
  else {| status := StatusOK; header := h; body := Streamed c |}.

Definition ServeXORFile (h : HTTPFileServer) (r : Request) : Handler Response :=
  let objKey := TrimPrefix (URLPath r) "/xor/" in
  headRes <~ callHeadObject (s3Client h) objKey ;;
  match headRes with
  | inl NotFound => respond (WriteHeader StatusNotFound)
  | inl err => respond (http_Error (error_text err) StatusInternalServerError)
  | inr headObj =>
      let fileSize := ContentLength headObj in
      _ <~ guard (ifModifiedSince_check r headObj) ;;
      let '(start, end_, isPartial) := xor_range fileSize (Range r) in
      let requestedRange := ("bytes=" ++ fmt_d start ++ "-" ++ fmt_d end_)%string in
      if start >=? end_
      then respond (http_Error "requested range not satisfiable"
                      StatusRequestedRangeNotSatisfiable)
      else
        getRes <~ callGetRangeObject (s3Client h) objKey requestedRange ;;
        match getRes with
        | inl err => respond (http_Error (error_text err) StatusInternalServerError)
        | inr getObj =>
            _ <~ guard (ifUnmodifiedSince_check r getObj) ;;
            let xorReader := Xor.NewXorReader (Body getObj) (xorKey h) start in
            hret (served headObj getObj start end_ fileSize isPartial
                    (Copy xorReader (pending (Body getObj))))
        end
  end.

Definition ServeCTRFile (h : HTTPFileServer) (r : Request) : Handler Response :=
  let objKey := TrimPrefix (URLPath r) "/ctr/" in
  headRes <~ callHeadObject (s3Client h) objKey ;;
  match headRes with
  | inl NotFound => respond (WriteHeader StatusNotFound)
  | inl err => respond (http_Error (error_text err) StatusInternalServerError)
  | inr headObj =>
      let fileSize := ContentLength headObj in
      let realFileSize := Int64.sub fileSize Ctr.BlockSize in
      _ <~ guard (ifModifiedSince_check r headObj) ;;
      ivRes <~ callGetRangeObject (s3Client h) objKey
                 ("bytes=0-" ++ fmt_d (Ctr.BlockSize - 1))%string ;;
      match ivRes with
      | inl err => respond (http_Error (error_text err) StatusInternalServerError)
      | inr ivObj =>
          match ReadFull (Body ivObj) (Z.to_nat Ctr.BlockSize) with
          | None => respond (http_Error "failed to read iv" StatusInternalServerError)
          | Some iv =>
              let '(start, end_, isPartial) := ctr_range realFileSize (Range r) in
              let requestedRange :=
                ("bytes=" ++ fmt_d (Int64.add start Ctr.BlockSize) ++ "-"
                   ++ fmt_d (Int64.add end_ Ctr.BlockSize))%string in
              if start >=? end_
              then respond (http_Error "requested range not satisfiable"
                              StatusRequestedRangeNotSatisfiable)
              else
                getRes <~ callGetRangeObject (s3Client h) objKey requestedRange ;;
                match getRes with
                | inl err =>
                    respond (http_Error (error_text err) StatusInternalServerError)
                | inr getObj =>
                    _ <~ guard (ifUnmodifiedSince_check r getObj) ;;
                    match Ctr.NewCTRReader (Body getObj) (cipherBlock h) iv start with
                    | Panic e =>
                        respond {| status := 0; header := []; body := Aborted e |}
                    | Ok ctrReader =>
                        hret (served headObj getObj start end_
                                (Int64.sub fileSize Ctr.BlockSize) isPartial
                                (Copy ctrReader (pending (Body getObj))))
                    end
                end
          end
      end
  end.

End Handlers.

Definition range_start (t : Z * Z * bool) : Z := fst (fst t).
Definition range_end (t : Z * Z * bool) : Z := snd (fst t).
Definition range_partial (t : Z * Z * bool) : bool := snd t.

(** A string without the byte '-'. *)
Fixpoint no_dash (s : string) : bool :=
  match s with
  | EmptyString => true
  | String c rest => negb (Ascii.eqb c "-") && no_dash rest
  end.

(** The part of a Range header is non-numeric when strconv.ParseInt reports a
    syntax error for it. *)
Definition non_numeric (s : string) : Prop := snd (ParseInt s) = ErrSyntax.

(** A Range header is malformed for the handlers when it is present and does
    not split into exactly two parts, or one of its two parts is non-numeric. *)
Definition malformed (requestedRange : string) : Prop :=
  requestedRange <> EmptyString /\
  let rangeParts := Split (TrimPrefix requestedRange "bytes=") "-" in
  length rangeParts <> 2%nat \/
  non_numeric (nth 0 rangeParts EmptyString) \/
  non_numeric (nth 1 rangeParts EmptyString).

(** A store for the examples: every object has the stored size [size], and
    a ranged read of [requestedRange] delivers [bytes_for requestedRange] in
    one chunk. *)
Definition example_store (size : Z) (bytes_for : string -> list Z) : S3Client :=
  {| HeadObject := fun _ =>
       inr {| ContentLength := size;
              ContentType := "application/octet-stream";
              LastModified := 100 |};
     GetRangeObject := fun _ requestedRange =>
       inr {| Body := {| pending := [bytes_for requestedRange] |};
              ETag := "etag";
              gLastModified := 100 |} |}.

Definition example_server (size : Z) (bytes_for : string -> list Z) : HTTPFileServer :=
  {| s3Client := example_store size bytes_for;
     xorKey := "key";
     cipherBlock := fun c => c |}.

(** Time functions for the examples, which carry no conditional header. *)
Definition noTime : string -> option Z := fun _ => None.
Definition epochTime : Z -> string := fun _ => "Thu, 01 Jan 1970 00:00:00 GMT"%string.

(** The 416 response of the range check, and the range of the IV fetch. *)
Definition unsatisfiable : Response :=
  http_Error "requested range not satisfiable" StatusRequestedRangeNotSatisfiable.

Definition ivRange : string := "bytes=0-15".

(** A request with a Range header and no conditional headers. *)
Definition get (path requestedRange : string) : Request :=
  {| URLPath := path; IfModifiedSince := EmptyString;
     Range := requestedRange; IfUnmodifiedSince := EmptyString |}.

End Http.

(** ** Further code of the same files *)

(** Successive [Write] calls on a repeating-key writer, one per chunk; a
    panic in one call ends the sequence. *)
Module XorSession.

Fixpoint write_all (w : Xor.xorWriter) (chunks : list (list Z)) : result Xor.xorWriter :=
  match chunks with
  | [] => Ok w
  | p :: rest =>
      res <- Xor.xorWriter_Write w p ;;
      write_all (snd res) rest
  end.

End XorSession.

(** The second copy of ctr.go: its NewCTRWriter zeroes the last 4 bytes of the
    random IV before use and returns no IV. *)
Module CtrRev.

Definition NewCTRWriter (writer : list Z) (block : Ctr.Block) (rnd : option (list Z))
  : result (option Ctr.ctrWriter) :=
  match rnd with
  | None => Ok None
  | Some bytes =>
      if (length bytes <? Z.to_nat Ctr.BlockSize)%nat then Ok None else
      let iv := firstn (Z.to_nat Ctr.BlockSize) bytes in
      let counter := 0 in
      let iv := firstn (length iv - 4) iv ++ Ctr.be_bytes 4 counter in
      stream <- Ctr.NewCTR block iv ;;
      Ok (Some {| Ctr.wstream := stream; Ctr.writer := writer ++ iv |})
  end.

End CtrRev.

(** S3Client.GetObjectTagging (s3.go).  A Go map is the list of its entries,
    one per key. *)
Module Tagging.

Record Tag : Type := { Key : string; Value : string }.

Definition GoMap : Type := list (string * string).

(** [m[k]] with the comma-ok form. *)
Fixpoint lookup (m : GoMap) (k : string) : option string :=
  match m with
  | [] => None
  | (k', v) :: rest => if String.eqb k' k then Some v else lookup rest k
  end.

(** [m[k] = v] *)
Definition store (m : GoMap) (k v : string) : GoMap :=
  (k, v) :: filter (fun e => negb (String.eqb (fst e) k)) m.

(** [answer] is what the store's GetObjectTagging call returns: its error or
    the tag set. *)
Definition GetObjectTagging (answer : Http.s3error + list Tag) : Http.s3error + GoMap :=
  match answer with
  | inl err => inl err
  | inr tagSet => inr (fold_left (fun out tag => store out (Key tag) (Value tag)) tagSet [])
  end.

(** The value of the last tag of [tagSet] whose key is [k]. *)
Fixpoint last_value (tagSet : list Tag) (k : string) : option string :=
  match tagSet with
  | [] => None
  | tag :: rest =>
      match last_value rest k with
      | Some v => Some v
      | None => if String.eqb (Key tag) k then Some (Value tag) else None
      end
  end.

End Tagging.

(** The status codes the handlers write (main.go). *)
Module HttpStatuses.
Import Http.


(** A parser of times for the examples: two named instants. *)
Definition sampleTime (s : string) : option Z :=
  if String.eqb s "at-100" then Some 100
  else if String.eqb s "at-200" then Some 200
  else None.

End HttpStatuses.

(** * Properties *)

Module Int64Facts.
Import Int64.

Lemma wrap_id z : in_range z -> wrap z = z.
Proof.
  unfold in_range, wrap, modulus, min, max. intros H.
  rewrite Z.mod_small; lia.
Qed.

Lemma wrap_in_range z : in_range (wrap z).
Proof.
  unfold in_range, wrap, modulus, min, max.
  pose proof (Z.mod_pos_bound (z + 2 ^ 63) (2 ^ 64) ltac:(lia)). lia.
Qed.

Lemma uwrap_id z : 0 <= z < modulus -> uwrap z = z.
Proof. unfold uwrap. intros. now apply Z.mod_small. Qed.

Lemma add_id a b : in_range (a + b) -> add a b = a + b.
Proof. apply wrap_id. Qed.

Lemma sub_id a b : in_range (a - b) -> sub a b = a - b.
Proof. apply wrap_id. Qed.

End Int64Facts.

(** ** The finite source *)

Module ReaderFacts.

Lemma Reader_Read_eof r p :
  pending r = [] -> Reader_Read r p = mkRead 0%nat true p r.
Proof. unfold Reader_Read. now intros ->. Qed.

(** A [Read] on a non-empty source with a non-empty buffer delivers a prefix
    [d] of the remaining bytes and leaves fewer calls to go. *)
Lemma Reader_Read_data r p :
  p <> [] -> pending r <> [] ->
  exists d,
    rr_eof (Reader_Read r p) = false /\
    length d = rr_n (Reader_Read r p) /\
    rr_buf (Reader_Read r p) = d ++ skipn (rr_n (Reader_Read r p)) p /\
    concat (pending r) = d ++ concat (pending (rr_next (Reader_Read r p))) /\
    (calls (pending (rr_next (Reader_Read r p))) < calls (pending r))%nat /\
    length (rr_buf (Reader_Read r p)) = length p.
Proof.
  intros Hp Hr. unfold Reader_Read.
  destruct (pending r) as [|c cs] eqn:E; [congruence|]. cbn [rr_eof rr_n rr_buf rr_next pending].
  exists (firstn (Nat.min (length c) (length p)) c).
  assert (Hlp : (0 < length p)%nat) by (destruct p; [congruence | cbn; lia]).
  repeat split.
  - rewrite length_firstn. lia.
  - destruct (Nat.leb_spec (length c) (length p)) as [Hle|Hlt]; cbn [concat].
    + rewrite Nat.min_l by lia. now rewrite firstn_all.
    + rewrite app_assoc, firstn_skipn. reflexivity.
  - unfold calls.
    destruct (Nat.leb_spec (length c) (length p)) as [Hle|Hlt]; cbn [fold_right].
    + lia.
    + rewrite length_skipn, Nat.min_r by lia. lia.
  - rewrite length_app, length_firstn, length_skipn. lia.
Qed.

End ReaderFacts.

(** ** The repeating-key stream *)

Module XorFacts.
Import Xor.

Lemma get_in_range (s : string) (n : nat) :
  (n < String.length s)%nat -> exists c, String.get n s = Some c.
Proof.
  revert n. induction s as [|a s IH]; intros n Hn; cbn in *; [lia|].
  destruct n; [eauto|]. apply IH. lia.
Qed.

Lemma key_at_in_range key idx :
  0 <= idx < Z.of_nat (String.length key) -> key_at key idx = Ok (key_byte key idx).
Proof.
  intros H. unfold key_at, key_byte.
  destruct (Z.ltb_spec idx 0); [lia|].
  destruct (get_in_range key (Z.to_nat idx)) as [c ->]; [lia | reflexivity].
Qed.

(** On positions that are non-negative [int64] values the loop is the
    contract's transform. *)
Lemma xor_loop_stream key offset i p :
  key <> EmptyString ->
  0 <= offset + i ->
  offset + i + Z.of_nat (length p) <= Int64.max + 1 ->
  xor_loop key offset i p = Ok (xor_stream key (offset + i) p).
Proof.
  intros Hkey. revert i.
  assert (HL : 0 < Z.of_nat (String.length key))
    by (destruct key; [congruence | cbn [String.length]; lia]).
  induction p as [|x rest IH]; intros i Hlo Hhi; [reflexivity|].
  cbn [xor_loop xor_stream length] in *.
  unfold rem64. destruct (Z.eqb_spec (Z.of_nat (String.length key)) 0); [lia|].
  cbn [rbind].
  rewrite Int64Facts.add_id by (unfold Int64.in_range, Int64.min, Int64.max in *; lia).
  rewrite Z.rem_mod_nonneg by lia.
  rewrite key_at_in_range by (apply Z.mod_pos_bound; lia).
  cbn [rbind]. rewrite IH by lia. cbn [rbind].
  unfold keystream_byte. now rewrite Z.add_assoc.
Qed.

Lemma xor_stream_length key pos p : length (xor_stream key pos p) = length p.
Proof. revert pos. induction p; intros; cbn; [|rewrite IHp]; reflexivity. Qed.

Lemma xor_stream_app key pos p q :
  xor_stream key pos (p ++ q)
  = xor_stream key pos p ++ xor_stream key (pos + Z.of_nat (length p)) q.
Proof.
  revert pos. induction p as [|x p IH]; intros pos; cbn [xor_stream app length].
  - now rewrite Z.add_0_r.
  - rewrite IH. do 3 f_equal. lia.
Qed.

Lemma xor_stream_nth key pos p i :
  (i < length p)%nat ->
  nth i (xor_stream key pos p) 0
  = Z.lxor (nth i p 0) (keystream_byte key (pos + Z.of_nat i)).
Proof.
  revert pos i. induction p as [|x p IH]; intros pos i Hi; cbn in Hi; [lia|].
  destruct i; cbn [xor_stream nth].
  - now rewrite Z.add_0_r.
  - rewrite IH by lia. do 2 f_equal. lia.
Qed.

(** The transform is its own inverse. *)
Lemma xor_stream_involutive key pos p :
  xor_stream key pos (xor_stream key pos p) = p.
Proof.
  revert pos. induction p as [|x p IH]; intros pos; cbn [xor_stream]; [reflexivity|].
  rewrite IH, Z.lxor_assoc, Z.lxor_nilpotent, Z.lxor_0_r. reflexivity.
Qed.

(** One [Read]: the bytes the source delivered are transformed in place at the
    cursor, and the cursor moves by their number. *)
Lemma xorReader_Read_stream r p :
  key r <> EmptyString ->
  0 <= offset r ->
  offset r + Z.of_nat (length (concat (pending (reader r)))) <= Int64.max ->
  let rd := Reader_Read (reader r) p in
  Read r p =
    Ok (mkRead (rr_n rd) (rr_eof rd)
          (xor_stream (key r) (offset r) (firstn (rr_n rd) (rr_buf rd))
             ++ skipn (rr_n rd) (rr_buf rd))
          {| reader := rr_next rd; key := key r;
             offset := offset r + Z.of_nat (rr_n rd) |}).
Proof.
  intros Hkey Hlo Hhi rd. cbn [Read xorReader_IOReader]. unfold xorReader_Read.
  fold rd.
  assert (Hn : (rr_n rd <= length (concat (pending (reader r))))%nat).
  { subst rd. unfold Reader_Read. destruct (pending (reader r)) as [|c cs]; cbn; [lia|].
    rewrite length_app. lia. }
  rewrite xor_loop_stream; rewrite ?length_firstn; try lia; trivial.
  cbn [rbind]. rewrite Z.add_0_r.
  rewrite Int64Facts.add_id
    by (unfold Int64.in_range, Int64.min, Int64.max in *; lia).
  reflexivity.
Qed.

(** io.Copy through the reader yields the transform of the whole source,
    whatever the chunking and the buffer. *)
Lemma copy_xorReader fuel : forall chunks key offset buf written,
  key <> EmptyString ->
  0 <= offset ->
  offset + Z.of_nat (length (concat chunks)) <= Int64.max ->
  buf <> [] ->
  (calls chunks <= fuel)%nat ->
  copy_loop fuel (NewXorReader {| pending := chunks |} key offset) buf written
  = Copied (written ++ xor_stream key offset (concat chunks)).
Proof.
  induction fuel as [|fuel IH]; intros chunks key offset buf written Hkey Hlo Hhi Hbuf Hfuel.
  { unfold calls in Hfuel. lia. }
  cbn [copy_loop].
  rewrite xorReader_Read_stream by assumption.
  cbn [NewXorReader reader Xor.key Xor.offset rr_n rr_eof rr_buf rr_next].
  destruct chunks as [|c cs].
  - cbn. now rewrite app_nil_r.
  - destruct (ReaderFacts.Reader_Read_data {| pending := c :: cs |} buf Hbuf)
      as (d & Heof & Hd & Hb & Hcat & Hcalls & Hlen); [discriminate|].
    set (rd := Reader_Read {| pending := c :: cs |} buf) in *.
    rewrite Heof. cbn [pending] in Hcat, Hcalls.
    assert (Hfst : firstn (rr_n rd) (rr_buf rd) = d)
      by (rewrite Hb, <- Hd, firstn_app, firstn_all, Nat.sub_diag; cbn;
          now rewrite app_nil_r).
    rewrite Hfst.
    replace (firstn (rr_n rd) (xor_stream key offset d ++ skipn (rr_n rd) (rr_buf rd)))
      with (xor_stream key offset d)
      by (rewrite <- Hd, <- (xor_stream_length key offset d), firstn_app, firstn_all,
            Nat.sub_diag; cbn; now rewrite app_nil_r).
    destruct (rr_next rd) as [rest] eqn:Hnext. cbn [pending] in *.
    change {| reader := {| pending := rest |}; Xor.key := key;
              offset := offset + Z.of_nat (rr_n rd) |}
      with (NewXorReader {| pending := rest |} key (offset + Z.of_nat (rr_n rd))).
    rewrite Hcat, length_app in Hhi.
    rewrite IH; try assumption; try lia.
    + rewrite Hcat, xor_stream_app, <- app_assoc, Hd. reflexivity.
    + intros E. apply (f_equal (@length Z)) in E.
      rewrite length_app, xor_stream_length in E. cbn [length] in E.
      assert (Hpos : (0 < length buf)%nat) by (destruct buf; [congruence | cbn; lia]).
      assert (Hz : rr_n rd = 0%nat) by lia.
      rewrite Hz in E. cbn [skipn] in E. lia.
Qed.

(** The writer applies the same transform at its own cursor. *)
Lemma xorWriter_Write_stream w p :
  wkey w <> EmptyString ->
  0 <= woffset w ->
  woffset w + Z.of_nat (length p) <= Int64.max ->
  xorWriter_Write w p =
    Ok (length p, xor_stream (wkey w) (woffset w) p,
        {| writer := writer w ++ xor_stream (wkey w) (woffset w) p;
           wkey := wkey w;
           woffset := woffset w + Z.of_nat (length p) |}).
Proof.
  intros Hkey Hlo Hhi. unfold xorWriter_Write.
  rewrite xor_loop_stream by (trivial; lia). cbn [rbind].
  rewrite Z.add_0_r, xor_stream_length.
  rewrite Int64Facts.add_id
    by (unfold Int64.in_range, Int64.min, Int64.max in *; lia).
  reflexivity.
Qed.

(** With a zero-length key the first transformed byte divides by zero. *)
Lemma xor_loop_empty_key offset i x rest :
  xor_loop EmptyString offset i (x :: rest) = Panic DivideByZero.
Proof. reflexivity. Qed.

(** C4, as stated: a reader constructed at offset -1 over the one byte 104 with
    the key "ab" panics on its first Read (Go's remainder is -1), so no
    transformed byte equal to 104 XOR K[(o + 0) mod L] is produced. *)
Lemma xor_reference_fails_at_negative_offset :
  let r := NewXorReader {| pending := [[104]] |} "ab" (-1) in
  Read r [0] = Panic (IndexOutOfRange (-1) 2) /\
  ~ (exists rd, Read r [0] = Ok rd /\
                nth 0 (rr_buf rd) 0 = Z.lxor 104 (keystream_byte "ab" (-1 + 0))).
Proof.
  split; [reflexivity|]. intros (rd & H & _). discriminate H.
Qed.

(** The same at the upper end of int64: at offset 2^63 - 1 the position of the
    second byte wraps to -2^63, whose remainder by 3 is -2. *)
Lemma xor_position_wraps :
  Read (NewXorReader {| pending := [[104; 105]] |} "abc" Int64.max) [0; 0]
  = Panic (IndexOutOfRange (-2) 3).
Proof. reflexivity. Qed.

(** C4, amended: for every non-empty key K of length L and every construction
    offset o such that all positions o + i consumed are non-negative int64
    values, (1) every Read transforms the n bytes the source delivered in place
    at the cursor and advances the cursor by exactly n; (2) across all Read
    calls since construction the i-th transformed byte is the i-th input byte
    XOR K[(o + i) mod L]; (3) the writer applies the identical transform from
    its cursor 0, and reading its output back through a reader at offset 0
    returns the original bytes. *)
Theorem xor_transform_reference :
  forall (key : string) (o : Z) (chunks : list (list Z)) (buf : list Z),
    key <> EmptyString ->
    0 <= o ->
    o + Z.of_nat (length (concat chunks)) <= Int64.max ->
    buf <> [] ->
    let L := Z.of_nat (String.length key) in
    let input := concat chunks in
    (forall p,
        let rd0 := Reader_Read {| pending := chunks |} p in
        exists rd,
          Read (NewXorReader {| pending := chunks |} key o) p = Ok rd /\
          rr_n rd = rr_n rd0 /\
          offset (rr_next rd) = o + Z.of_nat (rr_n rd) /\
          (forall i, (i < rr_n rd)%nat ->
             nth i (rr_buf rd) 0
             = Z.lxor (nth i (rr_buf rd0) 0) (key_byte key ((o + Z.of_nat i) mod L))) /\
          skipn (rr_n rd) (rr_buf rd) = skipn (rr_n rd) (rr_buf rd0)) /\
    (exists out,
        copy_loop (calls chunks) (NewXorReader {| pending := chunks |} key o) buf []
        = Copied out /\
        length out = length input /\
        forall i, (i < length input)%nat ->
          nth i out 0 = Z.lxor (nth i input 0) (key_byte key ((o + Z.of_nat i) mod L))) /\
    (Z.of_nat (length input) <= Int64.max ->
     exists q w,
        xorWriter_Write (NewXorWriter [] key) input = Ok (length input, q, w) /\
        writer w = q /\
        woffset w = Z.of_nat (length input) /\
        (forall i, (i < length input)%nat ->
           nth i q 0 = Z.lxor (nth i input 0) (key_byte key (Z.of_nat i mod L))) /\
        copy_loop (calls [q]) (NewXorReader {| pending := [q] |} key 0) buf []
        = Copied input).
Proof.
  intros key o chunks buf Hkey Hlo Hhi Hbuf L input. repeat split.
  - intros p rd0.
    pose proof (xorReader_Read_stream (NewXorReader {| pending := chunks |} key o) p
                  Hkey Hlo Hhi) as HR.
    cbn [NewXorReader reader Xor.key offset] in HR. fold rd0 in HR.
    eexists. split; [exact HR|].
    cbn [rr_n rr_buf rr_next offset]. repeat split.
    + intros i Hi.
      assert (Hlen : (rr_n rd0 <= length (rr_buf rd0))%nat).
      { subst rd0. unfold Reader_Read. destruct chunks as [|c cs]; cbn; [lia|].
        rewrite length_app, length_firstn, length_skipn. lia. }
      rewrite app_nth1 by (rewrite xor_stream_length, length_firstn; lia).
      rewrite xor_stream_nth by (rewrite length_firstn; lia).
      unfold keystream_byte. fold L. f_equal.
      rewrite <- (firstn_skipn (rr_n rd0) (rr_buf rd0)) at 2.
      rewrite app_nth1 by (rewrite length_firstn; lia). reflexivity.
    + rewrite skipn_app, xor_stream_length, length_firstn.
      assert (Hlen : (rr_n rd0 <= length (rr_buf rd0))%nat).
      { subst rd0. unfold Reader_Read. destruct chunks as [|c cs]; cbn; [lia|].
        rewrite length_app, length_firstn, length_skipn. lia. }
      rewrite Nat.min_l, Nat.sub_diag by lia. cbn [skipn].
      rewrite skipn_all2 by (rewrite xor_stream_length, length_firstn; lia).
      reflexivity.
  - exists (xor_stream key o input). repeat split.
    + rewrite copy_xorReader by (trivial; lia). reflexivity.
    + apply xor_stream_length.
    + intros i Hi. rewrite xor_stream_nth by assumption. reflexivity.
  - intros Hmax.
    pose proof (xorWriter_Write_stream (NewXorWriter [] key) input Hkey) as HW.
    cbn [NewXorWriter wkey woffset writer] in HW.
    do 2 eexists. split; [apply HW; lia|]. cbn [writer woffset app]. repeat split.
    + intros i Hi. rewrite xor_stream_nth by assumption. reflexivity.
    + rewrite copy_xorReader; cbn [concat app]; rewrite ?app_nil_r, ?xor_stream_length;
        trivial; try lia.
      now rewrite xor_stream_involutive.
Qed.

Lemma xor_transform_reference_witness :
  exists out,
    copy_loop (calls [[104; 105]; [33]])
      (NewXorReader {| pending := [[104; 105]; [33]] |} "ab" 3) [0; 0] []
    = Copied out /\
    length out = 3%nat /\
    forall i, (i < 3)%nat ->
      nth i out 0
      = Z.lxor (nth i [104; 105; 33] 0) (key_byte "ab" ((3 + Z.of_nat i) mod 2)).
Proof.
  apply (xor_transform_reference "ab" 3 [[104; 105]; [33]] [0; 0]).
  - discriminate.
  - lia.
  - vm_compute. discriminate.
  - discriminate.
Defined.

(** C9, as stated: construction with a zero-length key is not rejected; it
    returns a reader, and the fault is the integer division by zero of the
    first Read that transforms a byte. *)
Lemma zero_length_key_not_rejected :
  let r := NewXorReader {| pending := [[104]] |} EmptyString 0 in
  r = {| reader := {| pending := [[104]] |}; key := EmptyString; offset := 0 |} /\
  Read r [0] = Panic DivideByZero.
Proof. split; reflexivity. Qed.

(** C9, amended: construction never rejects a key: it returns a reader for
    every key, the zero-length one included.  With a zero-length key every
    Read (and Write) that transforms at least one byte faults with an integer
    division by zero.  For every non-empty key and every offset whose consumed
    positions are non-negative int64 values, every transform call completes
    without a fault and io.Copy through the reader runs to io.EOF. *)
Theorem xor_key_faults :
  forall (src : Reader) (key : string) (o : Z) (p : list Z),
    NewXorReader src key o = {| reader := src; key := key; offset := o |} /\
    (key = EmptyString ->
       ((0 < rr_n (Reader_Read src p))%nat ->
          Read (NewXorReader src key o) p = Panic DivideByZero) /\
       (p <> [] -> forall out,
          xorWriter_Write (NewXorWriter out key) p = Panic DivideByZero)) /\
    (key <> EmptyString ->
     0 <= o ->
     o + Z.of_nat (length (concat (pending src))) <= Int64.max ->
       (exists rd, Read (NewXorReader src key o) p = Ok rd) /\
       (p <> [] -> exists out,
          copy_loop (calls (pending src)) (NewXorReader src key o) p [] = Copied out)).
Proof.
  intros src key o p. split; [reflexivity|]. split.
  - intros ->. split.
    + intros Hn. cbn [Read xorReader_IOReader]. unfold xorReader_Read.
      cbn [NewXorReader reader Xor.key offset].
      destruct (firstn (rr_n (Reader_Read src p)) (rr_buf (Reader_Read src p)))
        as [|x rest] eqn:E.
      * apply (f_equal (@length Z)) in E. rewrite length_firstn in E. cbn in E.
        assert (Hlen : (rr_n (Reader_Read src p) <= length (rr_buf (Reader_Read src p)))%nat).
        { unfold Reader_Read. destruct (pending src) as [|c cs]; cbn; [lia|].
          rewrite length_app, length_firstn, length_skipn. lia. }
        lia.
      * reflexivity.
    + intros Hp out. destruct p; [congruence | reflexivity].
  - intros Hkey Hlo Hhi. split.
    + eexists. apply (xorReader_Read_stream (NewXorReader src key o) p Hkey Hlo Hhi).
    + intros Hp. destruct src as [chunks]. cbn [pending] in *.
      eexists. apply copy_xorReader; trivial.
Qed.

Lemma xor_key_faults_witness :
  (exists rd, Read (NewXorReader {| pending := [[104; 105]] |} "k" 7) [0; 0; 0] = Ok rd) /\
  ([0; 0; 0] <> [] -> exists out,
     copy_loop (calls [[104; 105]]) (NewXorReader {| pending := [[104; 105]] |} "k" 7)
       [0; 0; 0] [] = Copied out).
Proof.
  apply (xor_key_faults {| pending := [[104; 105]] |} "k" 7 [0; 0; 0]).
  - discriminate.
  - lia.
  - vm_compute. discriminate.
Defined.

End XorFacts.

(** ** The counter-mode stream *)

Module CtrFacts.
Import Ctr.

(** *** Big-endian counters *)

Lemma be_value_snoc l x : be_value (l ++ [x]) = be_value l * 256 + x.
Proof. unfold be_value. now rewrite fold_left_app. Qed.

Lemma be_bytes_length n v : length (be_bytes n v) = n.
Proof.
  revert v. induction n as [|n IH]; intros v; cbn [be_bytes]; [reflexivity|].
  rewrite length_app, IH. cbn. lia.
Qed.

Lemma be_value_bytes n v : be_value (be_bytes n v) = v mod 256 ^ Z.of_nat n.
Proof.
  revert v. induction n as [|n IH]; intros v.
  - cbn. now rewrite Z.mod_1_r.
  - cbn [be_bytes]. rewrite be_value_snoc, IH.
    rewrite Nat2Z.inj_succ, Z.pow_succ_r by lia.
    pose proof (Z.pow_pos_nonneg 256 (Z.of_nat n) ltac:(lia) ltac:(lia)).
    rewrite Z.rem_mul_r by lia. lia.
Qed.

Lemma be_bytes_value l :
  Forall is_byte l -> be_bytes (length l) (be_value l) = l.
Proof.
  induction l as [|x l IH] using rev_ind; intros H; [reflexivity|].
  apply Forall_app in H as [Hl Hx]. inversion Hx as [|? ? Hb _]; subst.
  unfold is_byte in Hb.
  rewrite length_app, Nat.add_comm. cbn [length Nat.add be_bytes].
  rewrite be_value_snoc.
  replace ((be_value l * 256 + x) / 256) with (be_value l)
    by (rewrite Z.div_add_l, Z.div_small; lia).
  replace ((be_value l * 256 + x) mod 256) with x
    by (rewrite Z.add_comm, Z.mod_add, Z.mod_small; lia).
  now rewrite IH.
Qed.

Lemma be_value_bound l :
  Forall is_byte l -> 0 <= be_value l < 256 ^ Z.of_nat (length l).
Proof.
  induction l as [|x l IH] using rev_ind; intros H; [cbn; lia|].
  apply Forall_app in H as [Hl Hx]. inversion Hx as [|? ? Hb _]; subst.
  unfold is_byte in Hb. specialize (IH Hl).
  rewrite be_value_snoc, length_app, Nat.add_comm. cbn [length Nat.add].
  rewrite Nat2Z.inj_succ, Z.pow_succ_r by lia. lia.
Qed.

(** The byte-wise increment adds one to the low [n] bytes when they do not
    all carry. *)
Lemma incr_from_last_low n : forall v t,
  0 <= v -> v + 1 < 256 ^ Z.of_nat n ->
  incr_from_last (rev (be_bytes n v) ++ t) = rev (be_bytes n (v + 1)) ++ t.
Proof.
  induction n as [|n IH]; intros v t Hv Hlt.
  - cbn in Hlt. lia.
  - rewrite Nat2Z.inj_succ, Z.pow_succ_r in Hlt by lia.
    cbn [be_bytes]. rewrite !rev_app_distr. cbn [rev app incr_from_last].
    pose proof (Z.mod_pos_bound v 256 ltac:(lia)) as Hm.
    pose proof (Z.div_mod v 256 ltac:(lia)) as Hdm.
    destruct (Z.eqb_spec ((v mod 256 + 1) mod 256) 0) as [E|E].
    + assert (Hv255 : v mod 256 = 255).
      { destruct (Z.eq_dec (v mod 256) 255) as [|N]; [assumption|].
        rewrite Z.mod_small in E; lia. }
      assert (Hq : (v + 1) / 256 = v / 256 + 1).
      { symmetry. apply (Z.div_unique (v + 1) 256 (v / 256 + 1) 0); lia. }
      assert (Hr : (v + 1) mod 256 = 0).
      { symmetry. apply (Z.mod_unique (v + 1) 256 (v / 256 + 1) 0); lia. }
      rewrite IH by (try apply Z.div_pos; lia).
      rewrite Hq, Hr, E. reflexivity.
    + assert (Hlt255 : v mod 256 < 255).
      { destruct (Z.eq_dec (v mod 256) 255) as [E2|]; [|lia].
        rewrite E2 in E. now cbn in E. }
      assert (Hq : (v + 1) / 256 = v / 256).
      { symmetry. apply (Z.div_unique (v + 1) 256 (v / 256) (v mod 256 + 1)); lia. }
      assert (Hr : (v + 1) mod 256 = v mod 256 + 1).
      { symmetry. apply (Z.mod_unique (v + 1) 256 (v / 256) (v mod 256 + 1)); lia. }
      rewrite Hq, Hr, (Z.mod_small (v mod 256 + 1)) by lia. reflexivity.
Qed.

Lemma increment_low hi n v :
  0 <= v -> v + 1 < 256 ^ Z.of_nat n ->
  increment (hi ++ be_bytes n v) = hi ++ be_bytes n (v + 1).
Proof.
  intros Hv Hlt. unfold increment.
  rewrite rev_app_distr, incr_from_last_low by assumption.
  now rewrite rev_app_distr, !rev_involutive.
Qed.

Lemma counter_at_succ c k : counter_at c (S k) = increment (counter_at c k).
Proof. reflexivity. Qed.

Lemma counter_at_add c j k : counter_at c (j + k) = counter_at (counter_at c j) k.
Proof.
  induction k as [|k IH]; [now rewrite Nat.add_0_r|].
  now rewrite Nat.add_succ_r, !counter_at_succ, IH.
Qed.

(** Stepping the counter [k] times adds [k] to its low 64 bits as long as
    they do not overflow. *)
Lemma counter_at_low hi v k :
  0 <= v -> v + Z.of_nat k < 2 ^ 64 ->
  counter_at (hi ++ be_bytes 8 v) k = hi ++ be_bytes 8 (v + Z.of_nat k).
Proof.
  intros Hv. induction k as [|k IH]; intros Hlt.
  - cbn. now rewrite Z.add_0_r.
  - rewrite counter_at_succ, IH by lia.
    rewrite increment_low by (cbn; lia). do 2 f_equal. lia.
Qed.

(** *** The keystream *)

Lemma next_byte_at block c pos :
  next_byte (stream_at block c pos)
  = (keystream_byte block c pos, stream_at block c (S pos)).
Proof.
  unfold next_byte, stream_at, keystream_byte, BlockSize. cbn [b ctr outUsed].
  pose proof (Nat.div_mod_eq pos 16) as Hdm.
  pose proof (Nat.mod_upper_bound pos 16 ltac:(lia)) as Hm.
  destruct (Z.ltb_spec (Z.of_nat (S (pos mod 16))) 16) as [Hlt|Hge].
  - assert (Hq : (S pos / 16 = pos / 16)%nat)
      by (symmetry; apply (Nat.div_unique (S pos) 16 (pos / 16) (S (pos mod 16))); lia).
    assert (Hr : (S pos mod 16 = S (pos mod 16))%nat)
      by (symmetry; apply (Nat.mod_unique (S pos) 16 (pos / 16) (S (pos mod 16))); lia).
    now rewrite Hq, Hr.
  - assert (Hq : (S pos / 16 = S (pos / 16))%nat)
      by (symmetry; apply (Nat.div_unique (S pos) 16 (S (pos / 16)) 0); lia).
    assert (Hr : (S pos mod 16 = 0)%nat)
      by (symmetry; apply (Nat.mod_unique (S pos) 16 (S (pos / 16)) 0); lia).
    now rewrite Hq, Hr.
Qed.

Lemma XORKeyStream_at block c src : forall pos,
  XORKeyStream (stream_at block c pos) src
  = (xor_keystream block c pos src, stream_at block c (pos + length src)).
Proof.
  induction src as [|s rest IH]; intros pos; cbn [XORKeyStream xor_keystream length].
  - now rewrite Nat.add_0_r.
  - rewrite next_byte_at, IH. now rewrite Nat.add_succ_r.
Qed.

Lemma xor_keystream_length block c pos src :
  length (xor_keystream block c pos src) = length src.
Proof. revert pos. induction src; intros; cbn; [|rewrite IHsrc]; reflexivity. Qed.

Lemma xor_keystream_app block c pos p q :
  xor_keystream block c pos (p ++ q)
  = xor_keystream block c pos p ++ xor_keystream block c (pos + length p) q.
Proof.
  revert pos. induction p as [|x p IH]; intros pos; cbn [xor_keystream app length].
  - now rewrite Nat.add_0_r.
  - rewrite IH. now rewrite Nat.add_succ_r.
Qed.

Lemma xor_keystream_nth block c pos src i :
  (i < length src)%nat ->
  nth i (xor_keystream block c pos src) 0
  = Z.lxor (nth i src 0) (keystream_byte block c (pos + i)).
Proof.
  revert pos i. induction src as [|x src IH]; intros pos i Hi; cbn in Hi; [lia|].
  destruct i; cbn [xor_keystream nth].
  - now rewrite Nat.add_0_r.
  - rewrite IH by lia. now rewrite Nat.add_succ_r.
Qed.

Lemma xor_keystream_involutive block c pos src :
  xor_keystream block c pos (xor_keystream block c pos src) = src.
Proof.
  revert pos. induction src as [|x src IH]; intros pos; cbn [xor_keystream]; [reflexivity|].
  rewrite IH, Z.lxor_assoc, Z.lxor_nilpotent, Z.lxor_0_r. reflexivity.
Qed.

Lemma xor_keystream_skipn block c n : forall pos src,
  skipn n (xor_keystream block c pos src) = xor_keystream block c (pos + n) (skipn n src).
Proof.
  induction n as [|n IH]; intros pos src.
  - now rewrite Nat.add_0_r.
  - destruct src as [|x src]; [reflexivity|]. cbn [xor_keystream skipn].
    rewrite IH. now rewrite Nat.add_succ_r.
Qed.

(** The keystream of a stream seeded [j] blocks further on. *)
Lemma keystream_byte_shift block c j pos :
  keystream_byte block (counter_at c j) pos = keystream_byte block c (16 * j + pos).
Proof.
  unfold keystream_byte.
  replace ((16 * j + pos) / 16)%nat with (j + pos / 16)%nat
    by (rewrite Nat.mul_comm, Nat.div_add_l; lia).
  replace ((16 * j + pos) mod 16)%nat with (pos mod 16)%nat
    by (rewrite Nat.add_comm, Nat.mul_comm, Nat.Div0.mod_add; reflexivity).
  now rewrite counter_at_add.
Qed.

Lemma xor_keystream_shift block c j src : forall pos,
  xor_keystream block (counter_at c j) pos src = xor_keystream block c (16 * j + pos) src.
Proof.
  induction src as [|x src IH]; intros pos; cbn [xor_keystream]; [reflexivity|].
  rewrite keystream_byte_shift, IH. now rewrite Nat.add_succ_r.
Qed.

(** *** The reader *)

Lemma seek_counter_length iv offset :
  length iv = 16%nat -> length (seek_counter iv offset) = 16%nat.
Proof.
  intros H. unfold seek_counter.
  rewrite length_app, length_firstn, be_bytes_length, H. reflexivity.
Qed.

(** NewCTRReader seeds the stream with [seek_counter] and leaves it
    [offset mod 16] keystream bytes into the first block. *)
Lemma NewCTRReader_at src block iv offset :
  length iv = 16%nat -> 0 <= offset ->
  NewCTRReader src block iv offset
  = Ok {| stream := stream_at block (seek_counter iv offset) (Z.to_nat (offset mod 16));
          reader := src;
          iv := seek_counter iv offset |}.
Proof.
  intros Hlen Ho. unfold NewCTRReader. rewrite Hlen. cbn [Nat.ltb Nat.leb Nat.sub].
  unfold Int64.uadd, Int64.uwrap, Int64.modulus, BlockSize.
  rewrite Z.quot_div_nonneg, Z.rem_mod_nonneg, Z.add_mod_idemp_r by lia.
  change (firstn 8 iv ++ be_bytes 8 ((be_value (skipn 8 iv) + offset / 16) mod 2 ^ 64))
    with (seek_counter iv offset).
  unfold NewCTR, BlockSize. rewrite seek_counter_length by assumption.
  cbn [Z.of_nat Pos.of_succ_nat Pos.succ Z.eqb Pos.eqb rbind].
  pose proof (Z.mod_pos_bound offset 16 ltac:(lia)) as Hm.
  destruct (Z.gtb_spec (offset mod 16) 0) as [Hgt|Hle].
  - change {| b := block; ctr := seek_counter iv offset; outUsed := 0 |}
      with (stream_at block (seek_counter iv offset) 0).
    rewrite XORKeyStream_at. cbn [snd]. now rewrite repeat_length.
  - replace (offset mod 16) with 0 by lia. reflexivity.
Qed.

Lemma ctrReader_Read_at block c pos src ivf p :
  let rd := Reader_Read src p in
  Read {| stream := stream_at block c pos; reader := src; iv := ivf |} p
  = Ok (mkRead (rr_n rd) (rr_eof rd)
          (xor_keystream block c pos (firstn (rr_n rd) (rr_buf rd))
             ++ skipn (rr_n rd) (rr_buf rd))
          {| stream := stream_at block c (pos + length (firstn (rr_n rd) (rr_buf rd)));
             reader := rr_next rd; iv := ivf |}).
Proof.
  intros rd. cbn [Read ctrReader_IOReader]. unfold ctrReader_Read.
  cbn [stream reader iv]. fold rd. now rewrite XORKeyStream_at.
Qed.

(** io.Copy through the reader yields the source XORed with the keystream from
    the stream's position on, whatever the chunking and the buffer. *)
Lemma copy_ctrReader fuel : forall chunks block c pos ivf buf written,
  buf <> [] ->
  (calls chunks <= fuel)%nat ->
  copy_loop fuel
    {| stream := stream_at block c pos; reader := {| pending := chunks |}; iv := ivf |}
    buf written
  = Copied (written ++ xor_keystream block c pos (concat chunks)).
Proof.
  induction fuel as [|fuel IH]; intros chunks block c pos ivf buf written Hbuf Hfuel.
  { unfold calls in Hfuel. lia. }
  cbn [copy_loop]. rewrite ctrReader_Read_at.
  cbn [rr_n rr_eof rr_buf rr_next].
  destruct chunks as [|ch cs].
  - cbn. now rewrite app_nil_r.
  - destruct (ReaderFacts.Reader_Read_data {| pending := ch :: cs |} buf Hbuf)
      as (d & Heof & Hd & Hb & Hcat & Hcalls & Hlen); [discriminate|].
    set (rd := Reader_Read {| pending := ch :: cs |} buf) in *.
    rewrite Heof. cbn [pending] in Hcat, Hcalls.
    assert (Hfst : firstn (rr_n rd) (rr_buf rd) = d)
      by (rewrite Hb, <- Hd, firstn_app, firstn_all, Nat.sub_diag; cbn;
          now rewrite app_nil_r).
    rewrite Hfst.
    replace (firstn (rr_n rd) (xor_keystream block c pos d ++ skipn (rr_n rd) (rr_buf rd)))
      with (xor_keystream block c pos d)
      by (rewrite <- Hd, <- (xor_keystream_length block c pos d), firstn_app, firstn_all,
            Nat.sub_diag; cbn; now rewrite app_nil_r).
    destruct (rr_next rd) as [rest] eqn:Hnext. cbn [pending] in *.
    rewrite IH; try lia.
    + rewrite Hcat, xor_keystream_app, <- app_assoc. reflexivity.
    + intros E. apply (f_equal (@length Z)) in E.
      rewrite length_app, xor_keystream_length in E. cbn [length] in E.
      assert (Hpos : (0 < length buf)%nat) by (destruct buf; [congruence | cbn; lia]).
      assert (Hz : rr_n rd = 0%nat) by lia.
      rewrite Hz in E. cbn [skipn] in E. lia.
Qed.

(** What a reader constructed at [offset] yields. *)
Lemma read_from_at block iv offset chunks buf :
  length iv = 16%nat -> 0 <= offset -> buf <> [] ->
  read_from block iv offset chunks buf
  = Ok (Copied (xor_keystream block (seek_counter iv offset)
                  (Z.to_nat (offset mod 16)) (concat chunks))).
Proof.
  intros Hlen Ho Hbuf. unfold read_from.
  rewrite NewCTRReader_at by assumption. cbn [rbind].
  now rewrite copy_ctrReader.
Qed.

(** *** Seeking *)

Lemma low64_bytes iv :
  length iv = 16%nat -> Forall is_byte iv ->
  be_bytes 8 (be_value (skipn 8 iv)) = skipn 8 iv.
Proof.
  intros Hlen Hb.
  assert (Hlo : Forall is_byte (skipn 8 iv))
    by (rewrite <- (firstn_skipn 8 iv) in Hb; now apply Forall_app in Hb).
  assert (Hl8 : length (skipn 8 iv) = 8%nat) by (rewrite length_skipn, Hlen; reflexivity).
  pose proof (be_bytes_value _ Hlo) as H. now rewrite Hl8 in H.
Qed.

Lemma seek_counter_0 iv :
  length iv = 16%nat -> Forall is_byte iv -> seek_counter iv 0 = iv.
Proof.
  intros Hlen Hb. unfold seek_counter, BlockSize.
  assert (Hlo : Forall is_byte (skipn 8 iv))
    by (rewrite <- (firstn_skipn 8 iv) in Hb; now apply Forall_app in Hb).
  assert (Hl8 : length (skipn 8 iv) = 8%nat) by (rewrite length_skipn, Hlen; reflexivity).
  pose proof (be_value_bound _ Hlo) as Hv. rewrite Hl8 in Hv.
  rewrite Z.div_0_l, Z.add_0_r, Z.mod_small by (cbn in *; lia).
  rewrite low64_bytes by assumption. apply firstn_skipn.
Qed.

(** Without a carry out of the low 64 bits the derived counter is the one the
    sequential stream reaches at that block. *)
Lemma seek_counter_no_carry iv offset :
  length iv = 16%nat -> Forall is_byte iv -> 0 <= offset ->
  be_value (skipn 8 iv) + offset / 16 < 2 ^ 64 ->
  seek_counter iv offset = counter_at iv (Z.to_nat (offset / 16)).
Proof.
  intros Hlen Hb Ho Hnc.
  assert (Hlo : Forall is_byte (skipn 8 iv))
    by (rewrite <- (firstn_skipn 8 iv) in Hb; now apply Forall_app in Hb).
  assert (Hl8 : length (skipn 8 iv) = 8%nat) by (rewrite length_skipn, Hlen; reflexivity).
  pose proof (be_value_bound _ Hlo) as Hv.
  pose proof (Z.div_pos offset 16 Ho ltac:(lia)) as Hq.
  rewrite Hl8 in Hv.
  transitivity (counter_at (firstn 8 iv ++ be_bytes 8 (be_value (skipn 8 iv)))
                  (Z.to_nat (offset / 16))).
  - rewrite counter_at_low by lia.
    unfold seek_counter, BlockSize. rewrite Z2Nat.id, Z.mod_small by lia. reflexivity.
  - rewrite low64_bytes by assumption. now rewrite firstn_skipn.
Qed.

(** Seek consistency where no carry occurs: a reader constructed at [o] over
    the bytes from [o] on yields what the reader constructed at 0 yields from
    its [o]-th byte on. *)
Lemma seek_consistent_without_carry block iv o ct buf :
  length iv = 16%nat -> Forall is_byte iv -> 0 <= o -> buf <> [] ->
  be_value (skipn 8 iv) + o / 16 < 2 ^ 64 ->
  exists whole,
    read_from block iv 0 [ct] buf = Ok (Copied whole) /\
    read_from block iv o [skipn (Z.to_nat o) ct] buf
    = Ok (Copied (skipn (Z.to_nat o) whole)).
Proof.
  intros Hlen Hb Ho Hbuf Hnc.
  rewrite !read_from_at by (trivial; lia). cbn [concat].
  rewrite !app_nil_r, seek_counter_0 by assumption.
  eexists. split; [reflexivity|]. do 2 f_equal.
  rewrite seek_counter_no_carry by assumption.
  rewrite xor_keystream_shift, xor_keystream_skipn. cbn [Z.to_nat Nat.add].
  f_equal.
  rewrite (Z.div_mod o 16) at 3 by lia.
  pose proof (Z.div_pos o 16 Ho ltac:(lia)).
  pose proof (Z.mod_pos_bound o 16 ltac:(lia)).
  rewrite Z2Nat.inj_add, Z2Nat.inj_mul by lia. reflexivity.
Qed.

Lemma lxor_cancel_l a x y : Z.lxor a x = Z.lxor a y -> x = y.
Proof.
  intros H. apply (f_equal (Z.lxor a)) in H.
  now rewrite <- !Z.lxor_assoc, Z.lxor_nilpotent, !Z.lxor_0_l in H.
Qed.

(** One block XORed against the encryptions of two counters that encrypt
    apart gives two different results. *)
Lemma xor_keystream_apart block c1 c2 src :
  (16 <= length src)%nat ->
  encrypts_apart block c1 c2 ->
  xor_keystream block c1 0 src <> xor_keystream block c2 0 src.
Proof.
  intros Hlen (i & Hi & Hne) E.
  apply (f_equal (fun l => nth i l 0)) in E.
  rewrite !xor_keystream_nth in E by lia.
  apply lxor_cancel_l in E. apply Hne.
  unfold keystream_byte in E. cbn [Nat.add] in E.
  rewrite Nat.div_small, Nat.mod_small in E by lia. exact E.
Qed.

(** *** The writer *)

Lemma firstn_prefix {A} (a rest : list A) n :
  length a = n -> firstn n (a ++ rest) = a.
Proof.
  intros <-. now rewrite firstn_app, firstn_all, Nat.sub_diag, firstn_O, app_nil_r.
Qed.

Lemma skipn_prefix {A} (a rest : list A) n m :
  length a = n -> skipn (n + m) (a ++ rest) = skipn m rest.
Proof.
  intros <-. rewrite skipn_app, skipn_all2 by lia.
  replace (length a + m - length a)%nat with m by lia. reflexivity.
Qed.

Lemma ctrWriter_Write_at block c pos out p :
  ctrWriter_Write {| wstream := stream_at block c pos; writer := out |} p
  = (length p,
     {| wstream := stream_at block c (pos + length p);
        writer := out ++ xor_keystream block c pos p |}).
Proof.
  unfold ctrWriter_Write. cbn [wstream writer].
  now rewrite XORKeyStream_at, xor_keystream_length.
Qed.

Lemma write_all_at block c chunks : forall pos out,
  write_all {| wstream := stream_at block c pos; writer := out |} chunks
  = {| wstream := stream_at block c (pos + length (concat chunks));
       writer := out ++ xor_keystream block c pos (concat chunks) |}.
Proof.
  unfold write_all.
  induction chunks as [|p chunks IH]; intros pos out; cbn [fold_left concat].
  - cbn. now rewrite Nat.add_0_r, app_nil_r.
  - rewrite ctrWriter_Write_at. cbn [snd]. rewrite IH.
    rewrite length_app, xor_keystream_app, Nat.add_assoc, app_assoc. reflexivity.
Qed.

Lemma NewCTRWriter_at block iv :
  length iv = 16%nat ->
  NewCTRWriter [] block (Some iv)
  = Ok (Some ({| wstream := stream_at block iv 0; writer := iv |}, iv)).
Proof.
  intros Hlen. unfold NewCTRWriter.
  change (Z.to_nat BlockSize) with 16%nat.
  replace (firstn 16 iv) with iv by (rewrite <- Hlen; symmetry; apply firstn_all).
  unfold NewCTR, BlockSize. rewrite Hlen. reflexivity.
Qed.

(** The object a writer produces: the IV, then the plaintext XORed with the
    sequential keystream. *)
Lemma written_object block iv chunks :
  length iv = 16%nat ->
  exists w,
    NewCTRWriter [] block (Some iv) = Ok (Some (w, iv)) /\
    writer (write_all w chunks) = iv ++ xor_keystream block iv 0 (concat chunks).
Proof.
  intros Hlen. eexists. split; [now apply NewCTRWriter_at|].
  now rewrite write_all_at.
Qed.

(** Round trip where no carry occurs: the stored object read back from its
    IV prefix at offset [o] is the plaintext from [o] on. *)
Lemma round_trip_without_carry block iv chunks o buf :
  length iv = 16%nat -> Forall is_byte iv -> 0 <= o -> buf <> [] ->
  be_value (skipn 8 iv) + o / 16 < 2 ^ 64 ->
  exists w,
    NewCTRWriter [] block (Some iv) = Ok (Some (w, iv)) /\
    let stored := writer (write_all w chunks) in
    read_from block (firstn 16 stored) o [skipn (16 + Z.to_nat o) stored] buf
    = Ok (Copied (skipn (Z.to_nat o) (concat chunks))).
Proof.
  intros Hlen Hb Ho Hbuf Hnc.
  destruct (written_object block iv chunks Hlen) as (w & Hw & Hst).
  exists w. split; [assumption|]. cbn zeta. rewrite Hst.
  rewrite firstn_prefix, skipn_prefix by assumption.
  destruct (seek_consistent_without_carry block iv o
              (xor_keystream block iv 0 (concat chunks)) buf Hlen Hb Ho Hbuf Hnc)
    as (whole & Hwhole & Hseek).
  rewrite Hseek. do 3 f_equal.
  rewrite read_from_at in Hwhole by (trivial; lia).
  rewrite seek_counter_0 in Hwhole by assumption.
  cbn [concat Z.to_nat] in Hwhole. rewrite app_nil_r in Hwhole.
  change (Z.to_nat (0 mod 16)) with 0%nat in Hwhole.
  rewrite xor_keystream_involutive in Hwhole. now inversion Hwhole.
Qed.

(** *** The claims on the counter-mode stream *)

Lemma carry_counters :
  seek_counter carry_iv 16 = carry_seek_counter /\
  seek_counter carry_iv 0 = carry_iv /\
  counter_at carry_iv 1 = carry_next_counter.
Proof. repeat split; vm_compute; reflexivity. Qed.

(** C1, at the failing input: with an IV whose low 64 bits are all ones and
    any 32 ciphertext bytes, the reader constructed at offset 16 over bytes
    [16, 32) does not yield what the reader constructed at offset 0 over
    bytes [0, 32) yields after its first 16 bytes, for every block cipher
    that encrypts the two counter blocks involved apart: NewCTRReader wraps
    the low 64 bits to zero while the sequential stream carries into the
    high bytes. *)
Theorem seek_diverges_after_low64_carry :
  forall (block : Block) (ct buf : list Z),
    length ct = 32%nat ->
    buf <> [] ->
    encrypts_apart block carry_seek_counter carry_next_counter ->
    exists seek whole,
      read_from block carry_iv 16 [skipn 16 ct] buf = Ok (Copied seek) /\
      read_from block carry_iv 0 [ct] buf = Ok (Copied whole) /\
      seek <> skipn 16 whole.
Proof.
  intros block ct buf Hlen Hbuf Hapart.
  destruct carry_counters as (Hseek & Hzero & Hnext).
  rewrite !read_from_at by (trivial; lia).
  rewrite Hseek, Hzero. cbn [concat]. rewrite !app_nil_r.
  do 2 eexists. split; [reflexivity|]. split; [reflexivity|].
  change (Z.to_nat (16 mod 16)) with 0%nat. change (Z.to_nat (0 mod 16)) with 0%nat.
  rewrite xor_keystream_skipn. cbn [Nat.add].
  replace (xor_keystream block carry_iv 16 (skipn 16 ct))
    with (xor_keystream block carry_next_counter 0 (skipn 16 ct))
    by (rewrite <- Hnext; apply xor_keystream_shift).
  apply xor_keystream_apart; [|assumption].
  rewrite length_skipn, Hlen. cbn. lia.
Qed.

Lemma seek_diverges_after_low64_carry_witness :
  exists seek whole,
    read_from (fun c => c) carry_iv 16 [skipn 16 (repeat 0 32)] [0] = Ok (Copied seek) /\
    read_from (fun c => c) carry_iv 0 [repeat 0 32] [0] = Ok (Copied whole) /\
    seek <> skipn 16 whole.
Proof.
  apply (seek_diverges_after_low64_carry (fun c => c) (repeat 0 32) [0]).
  - reflexivity.
  - discriminate.
  - exists 7%nat. split; [lia|]. vm_compute. discriminate.
Defined.

(** C2: for every 16-byte IV and every offset o >= 0, NewCTRReader returns a
    reader whose counter register keeps the IV's high 8 bytes and holds in
    its low 64 bits the IV's low 64 bits plus floor(o / 16) modulo 2^64; its
    stream is the stream seeded with that register after exactly o mod 16
    discarded keystream bytes, so the first emitted byte is XORed with byte
    o mod 16 of the register's encryption. *)
Theorem seek_derivation :
  forall (src : Reader) (block : Block) (iv : list Z) (o : Z),
    length iv = 16%nat ->
    0 <= o ->
    exists r fresh,
      NewCTRReader src block iv o = Ok r /\
      firstn 8 (Ctr.iv r) = firstn 8 iv /\
      length (Ctr.iv r) = 16%nat /\
      be_value (skipn 8 (Ctr.iv r)) = (be_value (skipn 8 iv) + o / BlockSize) mod 2 ^ 64 /\
      NewCTR block (Ctr.iv r) = Ok fresh /\
      stream r = snd (XORKeyStream fresh (repeat 0 (Z.to_nat (o mod BlockSize)))) /\
      (o mod BlockSize = 0 -> stream r = fresh) /\
      ctr (stream r) = Ctr.iv r /\
      Z.of_nat (outUsed (stream r)) = o mod BlockSize /\
      (forall c, fst (XORKeyStream (stream r) [c])
                 = [Z.lxor c (nth (Z.to_nat (o mod BlockSize)) (block (Ctr.iv r)) 0)]).
Proof.
  intros src block iv o Hlen Ho.
  pose proof (Z.mod_pos_bound o 16 ltac:(lia)) as Hm.
  assert (Hsmall : (Z.to_nat (o mod 16) < 16)%nat) by lia.
  assert (Hst : stream_at block (seek_counter iv o) (Z.to_nat (o mod 16))
                = {| b := block; ctr := seek_counter iv o;
                     outUsed := Z.to_nat (o mod 16) |}).
  { unfold stream_at. now rewrite Nat.div_small, Nat.mod_small by lia. }
  exists {| stream := stream_at block (seek_counter iv o) (Z.to_nat (o mod 16));
            reader := src; iv := seek_counter iv o |}.
  exists (stream_at block (seek_counter iv o) 0).
  cbn [Ctr.iv stream]. unfold BlockSize.
  split; [now apply NewCTRReader_at|].
  split; [unfold seek_counter; apply firstn_prefix; now rewrite length_firstn, Hlen|].
  split; [now apply seek_counter_length|].
  split.
  { unfold seek_counter, BlockSize.
    rewrite <- (Nat.add_0_r 8) at 1.
    rewrite skipn_prefix by (now rewrite length_firstn, Hlen).
    cbn [skipn]. rewrite be_value_bytes. cbn [Z.of_nat Pos.of_succ_nat Pos.succ].
    change (256 ^ 8) with (2 ^ 64). apply Z.mod_mod. lia. }
  split.
  { unfold NewCTR, BlockSize. now rewrite seek_counter_length. }
  split.
  { rewrite XORKeyStream_at. cbn [snd Nat.add]. now rewrite repeat_length. }
  split.
  { intros ->. reflexivity. }
  rewrite Hst. cbn [ctr outUsed].
  split; [reflexivity|]. split; [lia|].
  intros c. rewrite <- Hst. rewrite XORKeyStream_at. cbn [fst xor_keystream].
  unfold keystream_byte. now rewrite Nat.div_small, Nat.mod_small by lia.
Qed.

Lemma seek_derivation_witness :
  exists r fresh,
    NewCTRReader {| pending := [] |} (fun c => c) carry_iv 37 = Ok r /\
    firstn 8 (Ctr.iv r) = firstn 8 carry_iv /\
    length (Ctr.iv r) = 16%nat /\
    be_value (skipn 8 (Ctr.iv r))
    = (be_value (skipn 8 carry_iv) + 37 / BlockSize) mod 2 ^ 64 /\
    NewCTR (fun c => c) (Ctr.iv r) = Ok fresh /\
    stream r = snd (XORKeyStream fresh (repeat 0 (Z.to_nat (37 mod BlockSize)))) /\
    (37 mod BlockSize = 0 -> stream r = fresh) /\
    ctr (stream r) = Ctr.iv r /\
    Z.of_nat (outUsed (stream r)) = 37 mod BlockSize /\
    (forall c, fst (XORKeyStream (stream r) [c])
               = [Z.lxor c (nth (Z.to_nat (37 mod BlockSize))
                              ((fun c => c) (Ctr.iv r)) 0)]).
Proof.
  apply (seek_derivation {| pending := [] |} (fun c => c) carry_iv 37).
  - reflexivity.
  - lia.
Defined.

(** C3, at the failing input: a writer whose random IV has its low 64 bits
    all ones stores the IV followed by the ciphertext of a 32-byte plaintext;
    read back from the extracted IV at offset 0 the plaintext returns, but
    read back at offset 16 the result is not the plaintext from byte 16 on,
    for every block cipher that encrypts the two counter blocks involved
    apart. *)
Theorem round_trip_diverges_after_low64_carry :
  forall (block : Block) (pt buf : list Z),
    length pt = 32%nat ->
    buf <> [] ->
    encrypts_apart block carry_seek_counter carry_next_counter ->
    exists w out,
      NewCTRWriter [] block (Some carry_iv) = Ok (Some (w, carry_iv)) /\
      let stored := writer (write_all w [pt]) in
      firstn 16 stored = carry_iv /\
      read_from block (firstn 16 stored) 0 [skipn 16 stored] buf = Ok (Copied pt) /\
      read_from block (firstn 16 stored) 16 [skipn (16 + 16) stored] buf
      = Ok (Copied out) /\
      out <> skipn 16 pt.
Proof.
  intros block pt buf Hlen Hbuf Hapart.
  destruct (written_object block carry_iv [pt] eq_refl) as (w & Hw & Hst).
  cbn [concat] in Hst. rewrite app_nil_r in Hst.
  destruct carry_counters as (Hseek & Hzero & Hnext).
  exists w. eexists. split; [exact Hw|]. cbn zeta. rewrite Hst.
  rewrite (firstn_prefix carry_iv _ 16 eq_refl).
  rewrite (skipn_prefix carry_iv _ 16 16 eq_refl).
  rewrite <- (Nat.add_0_r 16) at 2. rewrite (skipn_prefix carry_iv _ 16 0 eq_refl).
  cbn [skipn]. rewrite !read_from_at by (trivial; lia).
  rewrite Hseek, Hzero. cbn [concat]. rewrite !app_nil_r.
  change (Z.to_nat (16 mod 16)) with 0%nat. change (Z.to_nat (0 mod 16)) with 0%nat.
  rewrite xor_keystream_involutive.
  split; [reflexivity|]. split; [reflexivity|]. split; [reflexivity|].
  rewrite xor_keystream_skipn. cbn [Nat.add].
  replace (xor_keystream block carry_iv 16 (skipn 16 pt))
    with (xor_keystream block carry_next_counter 0 (skipn 16 pt))
    by (rewrite <- Hnext; apply xor_keystream_shift).
  intros E.
  apply (xor_keystream_apart block carry_seek_counter carry_next_counter
           (xor_keystream block carry_next_counter 0 (skipn 16 pt))).
  - rewrite xor_keystream_length, length_skipn, Hlen. cbn. lia.
  - assumption.
  - rewrite xor_keystream_involutive. exact E.
Qed.

Lemma round_trip_diverges_after_low64_carry_witness :
  exists w out,
    NewCTRWriter [] (fun c => c) (Some carry_iv) = Ok (Some (w, carry_iv)) /\
    let stored := writer (write_all w [repeat 65 32]) in
    firstn 16 stored = carry_iv /\
    read_from (fun c => c) (firstn 16 stored) 0 [skipn 16 stored] [0]
    = Ok (Copied (repeat 65 32)) /\
    read_from (fun c => c) (firstn 16 stored) 16 [skipn (16 + 16) stored] [0]
    = Ok (Copied out) /\
    out <> skipn 16 (repeat 65 32).
Proof.
  apply (round_trip_diverges_after_low64_carry (fun c => c) (repeat 65 32) [0]).
  - reflexivity.
  - discriminate.
  - exists 7%nat. split; [lia|]. vm_compute. discriminate.
Defined.

End CtrFacts.

(** ** The handlers *)

Module HttpFacts.
Import Http.

Section Facts.

Variable ParseTime : string -> option Z.
Variable FormatTime : Z -> string.

Lemma ifModifiedSince_check_status r headObj resp :
  ifModifiedSince_check ParseTime r headObj = Some resp ->
  status resp = StatusBadRequest \/ status resp = StatusNotModified.
Proof.
  unfold ifModifiedSince_check.
  destruct (String.eqb _ _); [discriminate|].
  destruct (ParseTime _); [|intros [= <-]; now left].
  destruct (negb _); [|discriminate]. intros [= <-]. now right.
Qed.

Lemma ifUnmodifiedSince_check_status r getObj resp :
  ifUnmodifiedSince_check ParseTime r getObj = Some resp ->
  status resp = StatusBadRequest \/ status resp = StatusPreconditionFailed.
Proof.
  unfold ifUnmodifiedSince_check.
  destruct (String.eqb _ _); [discriminate|].
  destruct (ParseTime _); [|intros [= <-]; now left].
  destruct (negb _); [|discriminate]. intros [= <-]. now right.
Qed.

Lemma served_status headObj getObj start end_ size isPartial c :
  status (served FormatTime headObj getObj start end_ size isPartial c)
  = if isPartial then StatusPartialContent else StatusOK.
Proof. unfold served. now destruct isPartial. Qed.

(** *** Parsing the Range header *)

Lemma TrimPrefix_bytes x : TrimPrefix ("bytes=" ++ x) "bytes=" = x.
Proof. reflexivity. Qed.

Lemma Split_nonempty s sep : Split s sep <> [].
Proof.
  induction s as [|c s IH]; cbn; [discriminate|].
  destruct (Ascii.eqb c sep); [discriminate|].
  destruct (Split s sep); [congruence | discriminate].
Qed.

Lemma Split_no_dash e : no_dash e = true -> Split e "-" = [e].
Proof.
  induction e as [|c e IH]; cbn; [reflexivity|].
  destruct (Ascii.eqb c "-"); cbn; [discriminate|].
  intros H. now rewrite IH.
Qed.

Lemma Split_app_dash s rest :
  no_dash s = true -> Split (s ++ String "-" rest) "-" = s :: Split rest "-".
Proof.
  induction s as [|c s IH]; cbn [append Split no_dash].
  - reflexivity.
  - destruct (Ascii.eqb c "-"); cbn [negb andb]; [discriminate|].
    intros H. now rewrite (IH H).
Qed.

Lemma Split_two s e :
  no_dash s = true -> no_dash e = true -> Split (s ++ "-" ++ e) "-" = [s; e].
Proof.
  intros Hs He. change ("-" ++ e)%string with (String "-" e).
  now rewrite Split_app_dash, Split_no_dash.
Qed.

Lemma Split_at_least_two s rest :
  (2 <= length (Split (s ++ String "-" rest) "-"))%nat.
Proof.
  induction s as [|c s IH]; cbn [append Split].
  - cbn. pose proof (Split_nonempty rest "-").
    destruct (Split rest "-"); [congruence | cbn; lia].
  - destruct (Ascii.eqb c "-"); [cbn [length]; lia|].
    destruct (Split (s ++ String "-" rest) "-"); cbn [length] in *; lia.
Qed.

(** A leading '-' and a later '-' give at least three parts. *)
Lemma Split_leading_dash s e :
  (3 <= length (Split ("-" ++ s ++ "-" ++ e) "-"))%nat.
Proof.
  change ("-" ++ s ++ "-" ++ e)%string with (String "-" (s ++ String "-" e)).
  cbn [Split]. change (Ascii.eqb "-" "-") with true. cbn [length].
  pose proof (Split_at_least_two s e). lia.
Qed.

Lemma ParseInt_syntax s : snd (ParseInt s) = ErrSyntax -> fst (ParseInt s) = 0.
Proof.
  unfold ParseInt. destruct s as [|c rest]; [reflexivity|].
  destruct (ParseUint _) as [un err]. destruct err; cbn [fst snd].
  - destruct (_ && _); [discriminate|]. destruct (_ && _); discriminate.
  - reflexivity.
  - destruct (_ && _); [discriminate|]. destruct (_ && _); discriminate.
Qed.

Ltac unfold_handler :=
  unfold run, ServeXORFile, ServeCTRFile, hbind, callHeadObject, callGetRangeObject,
    guard, respond, hret; cbn [app].

Ltac destruct_fetch :=
  match goal with
  | |- context [match GetRangeObject ?c ?k ?rng with _ => _ end] =>
      destruct (GetRangeObject c k rng) as [err|getObj] eqn:?
  end.

Ltac status_cases :=
  unfold StatusOK, StatusPartialContent, StatusNotModified, StatusBadRequest,
    StatusNotFound, StatusPreconditionFailed, StatusRequestedRangeNotSatisfiable,
    StatusInternalServerError in *.

(** *** Range resolution *)

Lemma sub_1 L : Int64.min < L <= Int64.max -> Int64.sub L 1 = L - 1.
Proof.
  intros H. apply Int64Facts.sub_id.
  unfold Int64.in_range, Int64.min, Int64.max in *. lia.
Qed.

Lemma range_partial_present L hdr :
  range_partial (xor_range L hdr) = negb (String.eqb hdr "") /\
  range_partial (ctr_range L hdr) = negb (String.eqb hdr "").
Proof.
  unfold xor_range, ctr_range.
  destruct (String.eqb hdr ""); [split; reflexivity|].
  destruct (_ =? _)%nat; split; reflexivity.
Qed.

Lemma range_start_nonneg L hdr :
  0 <= range_start (xor_range L hdr) /\ 0 <= range_start (ctr_range L hdr).
Proof.
  unfold xor_range, ctr_range.
  destruct (String.eqb hdr ""); [split; cbn; lia|].
  destruct (_ =? _)%nat; [|split; cbn; lia].
  cbn [range_start fst].
  split; match goal with |- context [?a <? 0] => destruct (Z.ltb_spec a 0) end; lia.
Qed.

(** A present header whose parts are not exactly two leaves the defaults. *)
Lemma range_not_two_parts L hdr :
  hdr <> EmptyString ->
  length (Split (TrimPrefix hdr "bytes=") "-") <> 2%nat ->
  xor_range L hdr = (0, Int64.sub L 1, true) /\
  ctr_range L hdr = (0, Int64.sub L 1, true).
Proof.
  intros Hne Hparts. unfold xor_range, ctr_range.
  destruct (String.eqb_spec hdr ""); [congruence|].
  destruct (Nat.eqb_spec (length (Split (TrimPrefix hdr "bytes=") "-")) 2);
    [congruence|]. split; reflexivity.
Qed.

(** A header [bytes=s-e] resolves from the two parsed parts. *)
Lemma range_two_parts L s e :
  no_dash s = true -> no_dash e = true ->
  let vs := fst (ParseInt s) in
  let ve := fst (ParseInt e) in
  xor_range L ("bytes=" ++ s ++ "-" ++ e)
  = (if vs <? 0 then 0 else vs,
     if (ve =? 0) || (ve >? L) then Int64.sub L 1 else ve, true) /\
  ctr_range L ("bytes=" ++ s ++ "-" ++ e)
  = (if vs <? 0 then 0 else vs,
     if (ve =? 0) || (ve >=? L) then Int64.sub L 1 else ve, true).
Proof.
  intros Hs He vs ve. unfold xor_range, ctr_range.
  change (String.eqb ("bytes=" ++ s ++ "-" ++ e) "") with false.
  rewrite TrimPrefix_bytes, Split_two by assumption.
  split; reflexivity.
Qed.

(** C6: with the Range header absent the range is [0, L-1] and the
    candidate Full (a served response is 200, never 206); with a header
    present the candidate is Partial (a served response is 206, never 200)
    and start is never negative; for a header bytes=<start>-<end>, start is 0
    when the start part is missing, and a negative start leaves start 0; end
    is L-1 when the end part is missing, parses to zero or lies beyond the
    logical size L; for L = 1000 and bytes=500-1500 the range is 500-999.
    All of this on both routes, for every logical size L that is an int64
    value above the least one. *)
Theorem range_defaulting_and_clamping :
  forall (L : Z),
    Int64.min < L <= Int64.max ->
    (xor_range L "" = (0, L - 1, false) /\ ctr_range L "" = (0, L - 1, false)) /\
    (forall hdr, hdr <> EmptyString ->
       (range_partial (xor_range L hdr) = true /\ 0 <= range_start (xor_range L hdr)) /\
       (range_partial (ctr_range L hdr) = true /\ 0 <= range_start (ctr_range L hdr))) /\
    (forall s e, no_dash s = true -> no_dash e = true ->
       let hdr := ("bytes=" ++ s ++ "-" ++ e)%string in
       let vs := fst (ParseInt s) in
       let ve := fst (ParseInt e) in
       (range_start (xor_range L hdr) = Z.max 0 vs /\
        range_start (ctr_range L hdr) = Z.max 0 vs) /\
       (s = EmptyString ->
          range_start (xor_range L hdr) = 0 /\ range_start (ctr_range L hdr) = 0) /\
       (e = EmptyString \/ ve = 0 \/ ve > L ->
          range_end (xor_range L hdr) = L - 1 /\ range_end (ctr_range L hdr) = L - 1) /\
       (ve <> 0 -> ve < L ->
          range_end (xor_range L hdr) = ve /\ range_end (ctr_range L hdr) = ve)) /\
    (forall s e,
       let hdr := ("bytes=-" ++ s ++ "-" ++ e)%string in
       xor_range L hdr = (0, L - 1, true) /\ ctr_range L hdr = (0, L - 1, true)) /\
    (xor_range 1000 "bytes=500-1500" = (500, 999, true) /\
     ctr_range 1000 "bytes=500-1500" = (500, 999, true)) /\
    (forall h r,
       let x := status (snd (run (ServeXORFile ParseTime FormatTime h r))) in
       let c := status (snd (run (ServeCTRFile ParseTime FormatTime h r))) in
       (Range r = EmptyString -> x <> StatusPartialContent /\ c <> StatusPartialContent) /\
       (Range r <> EmptyString -> x <> StatusOK /\ c <> StatusOK)).
Proof.
  intros L HL. pose proof (sub_1 L HL) as Hsub.
  split; [|split; [|split; [|split; [|split]]]].
  - unfold xor_range, ctr_range. cbn [String.eqb]. now rewrite Hsub.
  - intros hdr Hne.
    destruct (range_partial_present L hdr) as [Hx Hc].
    destruct (range_start_nonneg L hdr) as [Hxs Hcs].
    destruct (String.eqb_spec hdr ""); [congruence|]. now repeat split.
  - intros s e Hs He hdr vs ve.
    destruct (range_two_parts L s e Hs He) as [Hx Hc]. fold hdr vs ve in Hx, Hc.
    rewrite Hx, Hc. cbn [range_start range_end fst snd]. rewrite Hsub.
    split; [|split; [|split]].
    + destruct (Z.ltb_spec vs 0); split; lia.
    + intros ->. subst vs. cbn. split; reflexivity.
    + intros Hcase.
      assert (He0 : e = EmptyString -> ve = 0) by (intros ->; reflexivity).
      destruct (Z.eqb_spec ve 0); [split; reflexivity|].
      destruct Hcase as [H|[H|H]]; [apply He0 in H; lia | lia |].
      destruct (Z.gtb_spec ve L); [|lia]. destruct (Z.geb_spec ve L); [|lia].
      split; reflexivity.
    + intros Hnz Hlt.
      destruct (Z.eqb_spec ve 0); [lia|].
      destruct (Z.gtb_spec ve L); [lia|]. destruct (Z.geb_spec ve L); [lia|].
      split; reflexivity.
  - intros s e hdr. rewrite <- Hsub. apply range_not_two_parts.
    + discriminate.
    + subst hdr.
      change ("bytes=-" ++ s ++ "-" ++ e)%string
        with ("bytes=" ++ ("-" ++ s ++ "-" ++ e))%string.
      rewrite TrimPrefix_bytes. pose proof (Split_leading_dash s e). lia.
  - split; reflexivity.
  - intros h r x c.
    assert (Hstat :
      (x = StatusOK -> Range r = EmptyString) /\
      (x = StatusPartialContent -> Range r <> EmptyString) /\
      (c = StatusOK -> Range r = EmptyString) /\
      (c = StatusPartialContent -> Range r <> EmptyString)).
    { subst x c. unfold_handler.
      split; [|split; [|split]].
      all: destruct (HeadObject (s3Client h) _) as [[|msg]|headObj];
        [cbn; status_cases; discriminate ..|].
      all: destruct (ifModifiedSince_check ParseTime r headObj) as [resp|] eqn:Hims;
        [apply ifModifiedSince_check_status in Hims; cbn [fst snd]; status_cases;
         intros; destruct Hims; exfalso; lia|].
      3,4: destruct (GetRangeObject (s3Client h) _ _) as [err|ivObj];
        [cbn; status_cases; discriminate|];
        destruct (ReadFull _ _) as [iv|]; [|cbn; status_cases; discriminate].
      1,2: pose proof (proj1 (range_partial_present (ContentLength headObj) (Range r)))
        as Hp;
        destruct (xor_range _ (Range r)) as [[start end_] isPartial].
      3,4: pose proof (proj2 (range_partial_present
                               (Int64.sub (ContentLength headObj) Ctr.BlockSize) (Range r)))
        as Hp;
        destruct (ctr_range _ (Range r)) as [[start end_] isPartial].
      all: cbn [range_partial snd] in Hp.
      all: destruct (start >=? end_); [cbn; status_cases; discriminate|].
      all: destruct (GetRangeObject _ _ _) as [err|getObj];
        [cbn; status_cases; discriminate|].
      all: destruct (ifUnmodifiedSince_check ParseTime r getObj) as [resp|] eqn:Hius;
        [apply ifUnmodifiedSince_check_status in Hius; cbn [fst snd]; status_cases;
         intros; destruct Hius; exfalso; lia|].
      3,4: destruct (Ctr.NewCTRReader _ _ _ _); [|cbn; status_cases; discriminate].
      all: cbn [fst snd]; rewrite served_status; status_cases.
      all: destruct (String.eqb_spec (Range r) ""); cbn [negb] in Hp; subst isPartial;
        intros; try discriminate; assumption. }
    destruct Hstat as (H1 & H2 & H3 & H4).
    split.
    + intros Hr. split; intros E; [apply H2 in E | apply H4 in E]; congruence.
    + intros Hr. split; intros E; [apply H1 in E | apply H3 in E]; congruence.
Qed.

(** *** The handlers from the range check on *)

(** ServeXORFile once the metadata fetch and the If-Modified-Since check have
    let the request through. *)
Lemma ServeXORFile_resolved h r headObj :
  let key := TrimPrefix (URLPath r) "/xor/" in
  HeadObject (s3Client h) key = inr headObj ->
  ifModifiedSince_check ParseTime r headObj = None ->
  let L := ContentLength headObj in
  let rg := xor_range L (Range r) in
  let start := range_start rg in
  let end_ := range_end rg in
  let body := ("bytes=" ++ fmt_d start ++ "-" ++ fmt_d end_)%string in
  run (ServeXORFile ParseTime FormatTime h r)
  = if start >=? end_ then ([CallHeadObject key], unsatisfiable)
    else
      let log := [CallHeadObject key; CallGetRangeObject key body] in
      match GetRangeObject (s3Client h) key body with
      | inl err => (log, http_Error (error_text err) StatusInternalServerError)
      | inr getObj =>
          match ifUnmodifiedSince_check ParseTime r getObj with
          | Some resp => (log, resp)
          | None =>
              (log, served FormatTime headObj getObj start end_ L (range_partial rg)
                      (Copy (Xor.NewXorReader (Body getObj) (xorKey h) start)
                         (pending (Body getObj))))
          end
      end.
Proof.
  intros key Hhead Hims L rg start end_ body. unfold_handler. fold key.
  rewrite Hhead, Hims. subst body start end_ rg L.
  destruct (xor_range (ContentLength headObj) (Range r)) as [[start end_] isPartial].
  cbn [range_start range_end range_partial fst snd].
  destruct (start >=? end_); [reflexivity|].
  destruct (GetRangeObject _ _ _) as [err|getObj]; [reflexivity|].
  destruct (ifUnmodifiedSince_check ParseTime r getObj); reflexivity.
Qed.

Lemma ReadFull_length src n bytes : ReadFull src n = Some bytes -> length bytes = n.
Proof.
  unfold ReadFull. destruct (Nat.ltb_spec (length (concat (pending src))) n);
    [discriminate|].
  intros [= <-]. rewrite length_firstn. lia.
Qed.

(** ServeCTRFile once the metadata fetch, the If-Modified-Since check and the
    IV fetch have let the request through. *)
Lemma ServeCTRFile_resolved h r headObj ivObj iv :
  let key := TrimPrefix (URLPath r) "/ctr/" in
  HeadObject (s3Client h) key = inr headObj ->
  ifModifiedSince_check ParseTime r headObj = None ->
  GetRangeObject (s3Client h) key ivRange = inr ivObj ->
  ReadFull (Body ivObj) 16 = Some iv ->
  let L := Int64.sub (ContentLength headObj) Ctr.BlockSize in
  let rg := ctr_range L (Range r) in
  let start := range_start rg in
  let end_ := range_end rg in
  let body := ("bytes=" ++ fmt_d (Int64.add start Ctr.BlockSize) ++ "-"
                 ++ fmt_d (Int64.add end_ Ctr.BlockSize))%string in
  run (ServeCTRFile ParseTime FormatTime h r)
  = if start >=? end_
    then ([CallHeadObject key; CallGetRangeObject key ivRange], unsatisfiable)
    else
      let log := [CallHeadObject key; CallGetRangeObject key ivRange;
                  CallGetRangeObject key body] in
      match GetRangeObject (s3Client h) key body with
      | inl err => (log, http_Error (error_text err) StatusInternalServerError)
      | inr getObj =>
          match ifUnmodifiedSince_check ParseTime r getObj with
          | Some resp => (log, resp)
          | None =>
              (log, served FormatTime headObj getObj start end_ L (range_partial rg)
                      (Copy {| Ctr.stream :=
                                 Ctr.stream_at (cipherBlock h) (Ctr.seek_counter iv start)
                                   (Z.to_nat (start mod 16));
                               Ctr.reader := Body getObj;
                               Ctr.iv := Ctr.seek_counter iv start |}
                         (pending (Body getObj))))
          end
      end.
Proof.
  intros key Hhead Hims Hiv Hread L rg start end_ body. unfold_handler. fold key.
  rewrite Hhead, Hims.
  change ("bytes=0-" ++ fmt_d (Ctr.BlockSize - 1))%string with ivRange.
  change (Z.to_nat Ctr.BlockSize) with 16%nat.
  rewrite Hiv, Hread. subst body.
  pose proof (proj2 (range_start_nonneg L (Range r))) as Hnn. fold rg start in Hnn.
  subst start end_ rg. fold L in Hnn |- *.
  destruct (ctr_range L (Range r)) as [[start end_] isPartial].
  cbn [range_start range_end range_partial fst snd] in *.
  destruct (start >=? end_); [reflexivity|].
  destruct_fetch; [reflexivity|].
  destruct (ifUnmodifiedSince_check ParseTime r getObj); [reflexivity|].
  rewrite CtrFacts.NewCTRReader_at by (eauto using ReadFull_length).
  reflexivity.
Qed.

(** C7: a request that reaches the range validation with start >= end (the
    single-byte case start = end included) is answered 416, Unsatisfiable,
    before any body fetch; one with start < end is not rejected by this
    check: its status is not 416.  On both routes. *)
Theorem unsatisfiable_range_check :
  forall (h : HTTPFileServer) (r : Request),
    (forall headObj,
       let key := TrimPrefix (URLPath r) "/xor/" in
       HeadObject (s3Client h) key = inr headObj ->
       ifModifiedSince_check ParseTime r headObj = None ->
       let rg := xor_range (ContentLength headObj) (Range r) in
       let x := run (ServeXORFile ParseTime FormatTime h r) in
       (range_end rg <= range_start rg ->
          x = ([CallHeadObject key], unsatisfiable) /\
          status (snd x) = StatusRequestedRangeNotSatisfiable) /\
       (range_start rg < range_end rg ->
          status (snd x) <> StatusRequestedRangeNotSatisfiable)) /\
    (forall headObj ivObj iv,
       let key := TrimPrefix (URLPath r) "/ctr/" in
       HeadObject (s3Client h) key = inr headObj ->
       ifModifiedSince_check ParseTime r headObj = None ->
       GetRangeObject (s3Client h) key ivRange = inr ivObj ->
       ReadFull (Body ivObj) 16 = Some iv ->
       let rg := ctr_range (Int64.sub (ContentLength headObj) Ctr.BlockSize) (Range r) in
       let c := run (ServeCTRFile ParseTime FormatTime h r) in
       (range_end rg <= range_start rg ->
          c = ([CallHeadObject key; CallGetRangeObject key ivRange], unsatisfiable) /\
          status (snd c) = StatusRequestedRangeNotSatisfiable) /\
       (range_start rg < range_end rg ->
          status (snd c) <> StatusRequestedRangeNotSatisfiable)).
Proof.
  intros h r. split.
  - intros headObj key Hhead Hims rg x. subst x.
    rewrite (ServeXORFile_resolved h r headObj Hhead Hims). fold key rg.
    split.
    + intros Hle. destruct (Z.geb_spec (range_start rg) (range_end rg)); [|lia].
      split; reflexivity.
    + intros Hlt. destruct (Z.geb_spec (range_start rg) (range_end rg)); [lia|].
      cbn zeta. destruct_fetch;
        [cbn; status_cases; discriminate|].
      destruct (ifUnmodifiedSince_check ParseTime r getObj) as [resp|] eqn:Hius.
      * apply ifUnmodifiedSince_check_status in Hius. cbn [snd]. status_cases.
        destruct Hius; lia.
      * cbn [snd]. rewrite served_status. status_cases.
        destruct (range_partial rg); discriminate.
  - intros headObj ivObj iv key Hhead Hims Hiv Hread rg c. subst c.
    rewrite (ServeCTRFile_resolved h r headObj ivObj iv Hhead Hims Hiv Hread).
    fold key rg.
    split.
    + intros Hle. destruct (Z.geb_spec (range_start rg) (range_end rg)); [|lia].
      split; reflexivity.
    + intros Hlt. destruct (Z.geb_spec (range_start rg) (range_end rg)); [lia|].
      cbn zeta. destruct_fetch;
        [cbn; status_cases; discriminate|].
      destruct (ifUnmodifiedSince_check ParseTime r getObj) as [resp|] eqn:Hius.
      * apply ifUnmodifiedSince_check_status in Hius. cbn [snd]. status_cases.
        destruct Hius; lia.
      * cbn [snd]. rewrite served_status. status_cases.
        destruct (range_partial rg); discriminate.
Qed.

(** A malformed header leaves the defaults in the places the claim names. *)
Lemma malformed_defaults L hdr :
  malformed hdr ->
  let parts := Split (TrimPrefix hdr "bytes=") "-" in
  (range_partial (xor_range L hdr) = true /\
   (length parts <> 2%nat ->
      range_start (xor_range L hdr) = 0 /\ range_end (xor_range L hdr) = Int64.sub L 1) /\
   (length parts = 2%nat -> non_numeric (nth 0 parts EmptyString) ->
      range_start (xor_range L hdr) = 0) /\
   (length parts = 2%nat -> non_numeric (nth 1 parts EmptyString) ->
      range_end (xor_range L hdr) = Int64.sub L 1)) /\
  (range_partial (ctr_range L hdr) = true /\
   (length parts <> 2%nat ->
      range_start (ctr_range L hdr) = 0 /\ range_end (ctr_range L hdr) = Int64.sub L 1) /\
   (length parts = 2%nat -> non_numeric (nth 0 parts EmptyString) ->
      range_start (ctr_range L hdr) = 0) /\
   (length parts = 2%nat -> non_numeric (nth 1 parts EmptyString) ->
      range_end (ctr_range L hdr) = Int64.sub L 1)).
Proof.
  intros [Hne _] parts.
  destruct (range_partial_present L hdr) as [Hpx Hpc].
  destruct (String.eqb_spec hdr ""); [congruence|]. cbn [negb] in Hpx, Hpc.
  split; (split; [assumption|]).
  all: split; [intros H2; destruct (range_not_two_parts L hdr Hne H2) as [Hx Hc];
               rewrite ?Hx, ?Hc; split; reflexivity|].
  all: unfold xor_range, ctr_range; fold parts.
  all: destruct (String.eqb_spec hdr ""); [congruence|].
  all: split; intros H2 Hnn; rewrite H2; cbn [Nat.eqb range_start range_end fst snd];
    unfold non_numeric in Hnn; apply ParseInt_syntax in Hnn; rewrite Hnn; reflexivity.
Qed.

(** C10, amended: a present Range header that does not split into exactly
    two parts, or whose start or end part is non-numeric, is never rejected
    as malformed: the candidate is Partial and the defaults stand (the whole
    range when the parts are not two, start 0 for a non-numeric start, the
    default end for a non-numeric end).  The request then meets the range
    check like any other: it is answered 416 when the resulting range has
    start >= end, and otherwise, when the body fetch succeeds and the
    If-Unmodified-Since check passes, it is served 206 Partial Content with a
    Content-Range header over that range.  On both routes. *)
Theorem malformed_range_tolerated :
  forall (h : HTTPFileServer) (r : Request),
    malformed (Range r) ->
    let parts := Split (TrimPrefix (Range r) "bytes=") "-" in
    (forall headObj,
       let key := TrimPrefix (URLPath r) "/xor/" in
       HeadObject (s3Client h) key = inr headObj ->
       ifModifiedSince_check ParseTime r headObj = None ->
       let L := ContentLength headObj in
       let rg := xor_range L (Range r) in
       let x := run (ServeXORFile ParseTime FormatTime h r) in
       range_partial rg = true /\
       (length parts <> 2%nat -> range_start rg = 0 /\ range_end rg = Int64.sub L 1) /\
       (length parts = 2%nat -> non_numeric (nth 0 parts EmptyString) ->
          range_start rg = 0) /\
       (length parts = 2%nat -> non_numeric (nth 1 parts EmptyString) ->
          range_end rg = Int64.sub L 1) /\
       (range_end rg <= range_start rg ->
          status (snd x) = StatusRequestedRangeNotSatisfiable) /\
       (range_start rg < range_end rg ->
          forall getObj,
            GetRangeObject (s3Client h) key
              ("bytes=" ++ fmt_d (range_start rg) ++ "-" ++ fmt_d (range_end rg))
            = inr getObj ->
            ifUnmodifiedSince_check ParseTime r getObj = None ->
            status (snd x) = StatusPartialContent /\
            In ("Content-Range"%string,
                ("bytes " ++ fmt_d (range_start rg) ++ "-" ++ fmt_d (range_end rg)
                   ++ "/" ++ fmt_d L)%string) (header (snd x)) /\
            exists c, body (snd x) = Streamed c)) /\
    (forall headObj ivObj iv,
       let key := TrimPrefix (URLPath r) "/ctr/" in
       HeadObject (s3Client h) key = inr headObj ->
       ifModifiedSince_check ParseTime r headObj = None ->
       GetRangeObject (s3Client h) key ivRange = inr ivObj ->
       ReadFull (Body ivObj) 16 = Some iv ->
       let L := Int64.sub (ContentLength headObj) Ctr.BlockSize in
       let rg := ctr_range L (Range r) in
       let c := run (ServeCTRFile ParseTime FormatTime h r) in
       range_partial rg = true /\
       (length parts <> 2%nat -> range_start rg = 0 /\ range_end rg = Int64.sub L 1) /\
       (length parts = 2%nat -> non_numeric (nth 0 parts EmptyString) ->
          range_start rg = 0) /\
       (length parts = 2%nat -> non_numeric (nth 1 parts EmptyString) ->
          range_end rg = Int64.sub L 1) /\
       (range_end rg <= range_start rg ->
          status (snd c) = StatusRequestedRangeNotSatisfiable) /\
       (range_start rg < range_end rg ->
          forall getObj,
            GetRangeObject (s3Client h) key
              ("bytes=" ++ fmt_d (Int64.add (range_start rg) Ctr.BlockSize) ++ "-"
                 ++ fmt_d (Int64.add (range_end rg) Ctr.BlockSize))
            = inr getObj ->
            ifUnmodifiedSince_check ParseTime r getObj = None ->
            status (snd c) = StatusPartialContent /\
            In ("Content-Range"%string,
                ("bytes " ++ fmt_d (range_start rg) ++ "-" ++ fmt_d (range_end rg)
                   ++ "/" ++ fmt_d L)%string) (header (snd c)) /\
            exists cp, body (snd c) = Streamed cp)).
Proof.
  intros h r Hmal parts. split.
  - intros headObj key Hhead Hims L rg x.
    destruct (malformed_defaults L (Range r) Hmal) as [(Hp & H1 & H2 & H3) _].
    fold parts rg in Hp, H1, H2, H3.
    do 4 (split; [assumption|]).
    subst x. rewrite (ServeXORFile_resolved h r headObj Hhead Hims). fold key L rg.
    split.
    + intros Hle. destruct (Z.geb_spec (range_start rg) (range_end rg)); [|lia].
      reflexivity.
    + intros Hlt getObj Hget Hius.
      destruct (Z.geb_spec (range_start rg) (range_end rg)); [lia|].
      cbn zeta. rewrite Hget, Hius, Hp. cbn [snd]. unfold served.
      cbn [status header body]. split; [reflexivity|]. split; [|eauto].
      apply in_or_app. right. left. reflexivity.
  - intros headObj ivObj iv key Hhead Hims Hiv Hread L rg c.
    destruct (malformed_defaults L (Range r) Hmal) as [_ (Hp & H1 & H2 & H3)].
    fold parts rg in Hp, H1, H2, H3.
    do 4 (split; [assumption|]).
    subst c. rewrite (ServeCTRFile_resolved h r headObj ivObj iv Hhead Hims Hiv Hread).
    fold key L rg.
    split.
    + intros Hle. destruct (Z.geb_spec (range_start rg) (range_end rg)); [|lia].
      reflexivity.
    + intros Hlt getObj Hget Hius.
      destruct (Z.geb_spec (range_start rg) (range_end rg)); [lia|].
      cbn zeta. rewrite Hget, Hius, Hp. cbn [snd]. unfold served.
      cbn [status header body]. split; [reflexivity|]. split; [|eauto].
      apply in_or_app. right. left. reflexivity.
Qed.

(** *** The range that reaches the body fetch *)

(** On the counter-mode route a range that passes the check lies inside the
    logical object. *)
Lemma ctr_range_invariant L hdr :
  Int64.in_range (L - 1) ->
  let rg := ctr_range L hdr in
  range_start rg < range_end rg ->
  0 <= range_start rg <= range_end rg /\ range_end rg < L.
Proof.
  intros HL rg.
  pose proof (proj2 (range_start_nonneg L hdr)) as Hnn. fold rg in Hnn.
  subst rg. revert Hnn. unfold ctr_range.
  rewrite (Int64Facts.sub_id L 1 HL).
  destruct (String.eqb hdr ""); [cbn; lia|].
  destruct (_ =? _)%nat; [|cbn; lia].
  cbn [range_start range_end fst snd].
  match goal with |- context [(?v =? 0) || (?v >=? L)] =>
    destruct (Z.eqb_spec v 0); destruct (Z.geb_spec v L); cbn [orb]; lia
  end.
Qed.

(** On the repeating-key route the end may reach the file size itself. *)
Lemma xor_range_bound L hdr :
  Int64.in_range (L - 1) ->
  let rg := xor_range L hdr in
  range_start rg < range_end rg ->
  0 <= range_start rg <= range_end rg /\ range_end rg <= L.
Proof.
  intros HL rg.
  pose proof (proj1 (range_start_nonneg L hdr)) as Hnn. fold rg in Hnn.
  subst rg. revert Hnn. unfold xor_range.
  rewrite (Int64Facts.sub_id L 1 HL).
  destruct (String.eqb hdr ""); [cbn; lia|].
  destruct (_ =? _)%nat; [|cbn; lia].
  cbn [range_start range_end fst snd].
  match goal with |- context [(?v =? 0) || (?v >? L)] =>
    destruct (Z.eqb_spec v 0); destruct (Z.gtb_spec v L); cbn [orb]; lia
  end.
Qed.

(** C8, amended: a request that resolves to NotModified, Unsatisfiable or
    PreconditionFailed issues no store fetch after that resolution.
    NotModified is resolved after the metadata fetch alone on both routes.
    Unsatisfiable is resolved before the ciphertext body fetch on both routes;
    on the counter-mode route the IV range fetch has been issued by then.
    PreconditionFailed is resolved only after the ciphertext body fetch (and
    the IV range fetch on the counter-mode route). *)
Theorem fetches_before_short_circuit :
  forall (h : HTTPFileServer) (r : Request),
    let xkey := TrimPrefix (URLPath r) "/xor/" in
    let ckey := TrimPrefix (URLPath r) "/ctr/" in
    let x := run (ServeXORFile ParseTime FormatTime h r) in
    let c := run (ServeCTRFile ParseTime FormatTime h r) in
    let ivRange := "bytes=0-15"%string in
    (status (snd x) = StatusNotModified -> fst x = [CallHeadObject xkey]) /\
    (status (snd x) = StatusRequestedRangeNotSatisfiable ->
       fst x = [CallHeadObject xkey]) /\
    (status (snd x) = StatusPreconditionFailed ->
       exists body, fst x = [CallHeadObject xkey; CallGetRangeObject xkey body]) /\
    (status (snd c) = StatusNotModified -> fst c = [CallHeadObject ckey]) /\
    (status (snd c) = StatusRequestedRangeNotSatisfiable ->
       fst c = [CallHeadObject ckey; CallGetRangeObject ckey ivRange]) /\
    (status (snd c) = StatusPreconditionFailed ->
       exists body, fst c = [CallHeadObject ckey; CallGetRangeObject ckey ivRange;
                             CallGetRangeObject ckey body]).
Proof.
  intros h r xkey ckey x c ivRange.
  assert (HX :
    (status (snd x) = StatusNotModified -> fst x = [CallHeadObject xkey]) /\
    (status (snd x) = StatusRequestedRangeNotSatisfiable ->
       fst x = [CallHeadObject xkey]) /\
    (status (snd x) = StatusPreconditionFailed ->
       exists body, fst x = [CallHeadObject xkey; CallGetRangeObject xkey body])).
  { subst x. unfold_handler. fold xkey.
    destruct (HeadObject (s3Client h) xkey) as [[|msg]|headObj];
      [cbn; status_cases; repeat split; discriminate ..|].
    destruct (ifModifiedSince_check ParseTime r headObj) as [resp|] eqn:Hims.
    { apply ifModifiedSince_check_status in Hims. cbn [fst snd].
      status_cases. repeat split; intros; trivial; destruct Hims; exfalso; lia. }
    destruct (xor_range (ContentLength headObj) (Range r)) as [[start end_] isPartial].
    destruct (start >=? end_);
      [cbn; status_cases; repeat split; intros; trivial; discriminate|].
    destruct (GetRangeObject _ _ _) as [err|getObj];
      [cbn; status_cases; repeat split; discriminate|].
    destruct (ifUnmodifiedSince_check ParseTime r getObj) as [resp|] eqn:Hius.
    { apply ifUnmodifiedSince_check_status in Hius. cbn [fst snd].
      status_cases. repeat split; intros; try (eexists; reflexivity);
      destruct Hius; exfalso; lia. }
    cbn [fst snd]. rewrite served_status.
    status_cases. destruct isPartial; repeat split; discriminate. }
  destruct HX as (HX1 & HX2 & HX3).
  do 3 (split; [assumption|]).
  subst c. unfold_handler. fold ckey.
  destruct (HeadObject (s3Client h) ckey) as [[|msg]|headObj];
    [cbn; status_cases; repeat split; discriminate ..|].
  destruct (ifModifiedSince_check ParseTime r headObj) as [resp|] eqn:Hims.
  { apply ifModifiedSince_check_status in Hims. cbn [fst snd].
    status_cases. repeat split; intros; trivial; destruct Hims; exfalso; lia. }
  change ("bytes=0-" ++ fmt_d (Ctr.BlockSize - 1))%string with ivRange.
  destruct (GetRangeObject (s3Client h) ckey ivRange) as [err|ivObj];
    [cbn; status_cases; repeat split; discriminate|].
  destruct (ReadFull _ _) as [iv|];
    [|cbn; status_cases; repeat split; discriminate].
  destruct (ctr_range _ (Range r)) as [[start end_] isPartial].
  destruct (start >=? end_);
    [cbn; status_cases; repeat split; intros; trivial; discriminate|].
  destruct (GetRangeObject _ _ _) as [err|getObj];
    [cbn; status_cases; repeat split; discriminate|].
  destruct (ifUnmodifiedSince_check ParseTime r getObj) as [resp|] eqn:Hius.
  { apply ifUnmodifiedSince_check_status in Hius. cbn [fst snd].
    status_cases. repeat split; intros; try (eexists; reflexivity);
      destruct Hius; exfalso; lia. }
  destruct (Ctr.NewCTRReader _ _ _ _);
    [|cbn; status_cases; repeat split; discriminate].
  cbn [fst snd]. rewrite served_status.
  status_cases. destruct isPartial; repeat split; discriminate.
Qed.

End Facts.

(** C8, as stated: on the counter-mode route a request with
    [Range: bytes=300-100] resolves to 416 only after the IV range fetch
    [bytes=0-15] has been issued. *)
Lemma ctr_unsatisfiable_after_iv_fetch :
  run (ServeCTRFile noTime epochTime
         (example_server 1016 (fun _ => repeat 0 16)) (get "/ctr/k" "bytes=300-100"))
  = ([CallHeadObject "k"; CallGetRangeObject "k" "bytes=0-15"],
     http_Error "requested range not satisfiable" StatusRequestedRangeNotSatisfiable).
Proof. reflexivity. Qed.

(** C5, at the failing input: on the repeating-key route a 1000-byte object
    requested with [Range: bytes=0-1000] passes the range check with
    end = 1000 = logicalSize; the body fetch is issued for bytes=0-1000 and
    the response announces bytes 0-1000/1000 with Content-Length 1001.  The
    counter-mode route clamps the same header to end = 999. *)
Theorem xor_range_end_reaches_file_size :
  let x := run (ServeXORFile noTime epochTime
                  (example_server 1000 (fun _ => repeat 0 1000))
                  (get "/xor/k" "bytes=0-1000")) in
  xor_range 1000 "bytes=0-1000" = (0, 1000, true) /\
  ~ range_end (xor_range 1000 "bytes=0-1000") < 1000 /\
  fst x = [CallHeadObject "k"; CallGetRangeObject "k" "bytes=0-1000"] /\
  status (snd x) = StatusPartialContent /\
  In ("Content-Range"%string, "bytes 0-1000/1000"%string) (header (snd x)) /\
  In ("Content-Length"%string, "1001"%string) (header (snd x)) /\
  ctr_range 1000 "bytes=0-1000" = (0, 999, true).
Proof.
  vm_compute. repeat split; try discriminate;
    repeat (first [left; reflexivity | right]).
Qed.

(** C10, as stated: on a 100-byte object the header [bytes=500-abc], whose
    end part is non-numeric, keeps start 500 against the defaulted end 99 and
    is answered 416, not 206. *)
Lemma malformed_range_rejected_416 :
  malformed "bytes=500-abc" /\
  run (ServeXORFile noTime epochTime
         (example_server 100 (fun _ => repeat 0 100)) (get "/xor/k" "bytes=500-abc"))
  = ([CallHeadObject "k"], unsatisfiable).
Proof.
  split; [|reflexivity].
  split; [discriminate|]. right. right. reflexivity.
Qed.

Lemma range_defaulting_and_clamping_witness :
  xor_range 1000 "" = (0, 1000 - 1, false) /\ ctr_range 1000 "" = (0, 1000 - 1, false).
Proof.
  apply (range_defaulting_and_clamping noTime epochTime 1000).
  unfold Int64.min, Int64.max. lia.
Defined.

Lemma unsatisfiable_range_check_witness :
  let h := example_server 1000 (fun _ => repeat 0 1000) in
  let r := get "/xor/k" "bytes=5-5" in
  run (ServeXORFile noTime epochTime h r) = ([CallHeadObject "k"], unsatisfiable) /\
  status (snd (run (ServeXORFile noTime epochTime h r)))
  = StatusRequestedRangeNotSatisfiable.
Proof.
  intros h r.
  destruct (unsatisfiable_range_check noTime epochTime h r) as [HX _].
  destruct (HX {| ContentLength := 1000;
                  ContentType := "application/octet-stream";
                  LastModified := 100 |} eq_refl eq_refl) as [H416 _].
  apply H416. vm_compute. discriminate.
Defined.

Lemma malformed_range_tolerated_witness :
  let h := example_server 1000 (fun _ => repeat 0 1000) in
  let r := get "/xor/k" "bytes=0-5,10-15" in
  status (snd (run (ServeXORFile noTime epochTime h r))) = StatusPartialContent /\
  In ("Content-Range"%string, "bytes 0-999/1000"%string)
    (header (snd (run (ServeXORFile noTime epochTime h r)))) /\
  exists c, body (snd (run (ServeXORFile noTime epochTime h r))) = Streamed c.
Proof.
  intros h r.
  assert (Hmal : malformed (Range r)).
  { split; [discriminate|]. left. vm_compute. discriminate. }
  destruct (malformed_range_tolerated noTime epochTime h r Hmal) as [HX _].
  destruct (HX {| ContentLength := 1000;
                  ContentType := "application/octet-stream";
                  LastModified := 100 |} eq_refl eq_refl)
    as (_ & _ & _ & _ & _ & Hserved).
  apply (Hserved ltac:(vm_compute; reflexivity)
           {| Body := {| pending := [repeat 0 1000] |}; ETag := "etag";
              gLastModified := 100 |} eq_refl eq_refl).
Defined.

End HttpFacts.

(** * Further properties *)

(** ** The repeating-key stream: seeking, round trips, period *)

Module XorExtra.
Import Xor.

Lemma xor_stream_skipn key n : forall pos p,
  skipn n (xor_stream key pos p) = xor_stream key (pos + Z.of_nat n) (skipn n p).
Proof.
  induction n as [|n IH]; intros pos p.
  - cbn [skipn Z.of_nat]. now rewrite Z.add_0_r.
  - destruct p as [|x p]; [reflexivity|]. cbn [xor_stream skipn].
    rewrite IH. f_equal. lia.
Qed.

Lemma xor_stream_firstn key n : forall pos p,
  firstn n (xor_stream key pos p) = xor_stream key pos (firstn n p).
Proof.
  induction n as [|n IH]; intros pos p; [reflexivity|].
  destruct p as [|x p]; [reflexivity|]. cbn [xor_stream firstn]. now rewrite IH.
Qed.

Lemma keystream_byte_period key pos k :
  key <> EmptyString ->
  keystream_byte key (pos + k * Z.of_nat (String.length key)) = keystream_byte key pos.
Proof.
  intros Hkey. unfold keystream_byte. f_equal.
  apply Z.mod_add. destruct key; [congruence | cbn [String.length]; lia].
Qed.

Lemma xor_stream_period key k p : forall pos,
  key <> EmptyString ->
  xor_stream key (pos + k * Z.of_nat (String.length key)) p = xor_stream key pos p.
Proof.
  induction p as [|x p IH]; intros pos Hkey; cbn [xor_stream]; [reflexivity|].
  rewrite keystream_byte_period by assumption. f_equal.
  rewrite <- (IH (pos + 1) Hkey). f_equal. lia.
Qed.

Lemma length_skipn_le {A} n (l : list A) : (length (skipn n l) <= length l)%nat.
Proof. rewrite length_skipn. lia. Qed.

(** The writer after successive Write calls. *)
Lemma write_all_stream chunks : forall w,
  wkey w <> EmptyString ->
  0 <= woffset w ->
  woffset w + Z.of_nat (length (concat chunks)) <= Int64.max ->
  XorSession.write_all w chunks
  = Ok {| writer := writer w ++ xor_stream (wkey w) (woffset w) (concat chunks);
          wkey := wkey w;
          woffset := woffset w + Z.of_nat (length (concat chunks)) |}.
Proof.
  induction chunks as [|p chunks IH]; intros w Hkey Hlo Hhi.
  - cbn. rewrite app_nil_r, Z.add_0_r. now destruct w.
  - cbn [XorSession.write_all concat] in *. rewrite length_app in Hhi.
    rewrite XorFacts.xorWriter_Write_stream by (trivial; lia).
    cbn [rbind snd]. rewrite IH; cbn [wkey woffset writer]; trivial; try lia.
    rewrite XorFacts.xor_stream_app, <- app_assoc, length_app.
    do 2 f_equal. lia.
Qed.

(** X1: seek consistency of the repeating-key reader.  For a non-empty key
    and an offset o in the non-negative int64 range, a reader constructed at
    o over the bytes from o on yields what a reader constructed at 0 over all
    the bytes yields from its o-th byte on, whatever the chunking of the two
    sources and the buffers used. *)
Theorem xor_seek_consistency :
  forall (key : string) (o : Z) (data : list Z)
         (chunks0 chunks1 : list (list Z)) (buf0 buf1 : list Z),
    key <> EmptyString ->
    0 <= o <= Int64.max ->
    Z.of_nat (length data) <= Int64.max ->
    concat chunks0 = data ->
    concat chunks1 = skipn (Z.to_nat o) data ->
    buf0 <> [] -> buf1 <> [] ->
    exists whole,
      copy_loop (calls chunks0) (NewXorReader {| pending := chunks0 |} key 0) buf0 []
      = Copied whole /\
      length whole = length data /\
      copy_loop (calls chunks1) (NewXorReader {| pending := chunks1 |} key o) buf1 []
      = Copied (skipn (Z.to_nat o) whole).
Proof.
  intros key o data chunks0 chunks1 buf0 buf1 Hkey Ho Hlen H0 H1 Hb0 Hb1.
  exists (xor_stream key 0 data).
  pose proof (length_skipn_le (Z.to_nat o) data) as Hsk.
  assert (Hpos : o + Z.of_nat (length (skipn (Z.to_nat o) data)) <= Int64.max).
  { rewrite length_skipn. lia. }
  rewrite !XorFacts.copy_xorReader by (rewrite ?H0, ?H1; trivial; lia).
  rewrite H0, H1, XorFacts.xor_stream_length, xor_stream_skipn.
  cbn [app]. rewrite Z2Nat.id by lia. repeat split.
Qed.

Lemma xor_seek_consistency_witness :
  exists whole,
    copy_loop (calls [[1; 2]; [3; 4; 5]])
      (NewXorReader {| pending := [[1; 2]; [3; 4; 5]] |} "key" 0) [0; 0] []
    = Copied whole /\
    length whole = length [1; 2; 3; 4; 5] /\
    copy_loop (calls [[4]; [5]])
      (NewXorReader {| pending := [[4]; [5]] |} "key" 3) [0; 0; 0] []
    = Copied (skipn (Z.to_nat 3) whole).
Proof.
  apply (xor_seek_consistency "key" 3 [1; 2; 3; 4; 5] [[1; 2]; [3; 4; 5]] [[4]; [5]]
           [0; 0] [0; 0; 0]);
    try discriminate; try reflexivity; unfold Int64.max; cbn; lia.
Defined.

(** X2: round trip of the repeating-key writer and reader.  For a non-empty
    key, successive Write calls never fault and forward the bytes one Write
    of the whole plaintext forwards, as many as the plaintext; read back
    through a reader constructed at any offset o over the written bytes from
    o on, they are the plaintext from o on. *)
Theorem xor_round_trip :
  forall (key : string) (pchunks : list (list Z)) (o : Z)
         (rchunks : list (list Z)) (buf : list Z),
    key <> EmptyString ->
    Z.of_nat (length (concat pchunks)) <= Int64.max ->
    0 <= o <= Int64.max ->
    buf <> [] ->
    (exists w, XorSession.write_all (NewXorWriter [] key) pchunks = Ok w) /\
    (forall w,
       XorSession.write_all (NewXorWriter [] key) pchunks = Ok w ->
       XorSession.write_all (NewXorWriter [] key) [concat pchunks] = Ok w /\
       length (writer w) = length (concat pchunks) /\
       woffset w = Z.of_nat (length (concat pchunks)) /\
       (concat rchunks = skipn (Z.to_nat o) (writer w) ->
        copy_loop (calls rchunks) (NewXorReader {| pending := rchunks |} key o) buf []
        = Copied (skipn (Z.to_nat o) (concat pchunks)))).
Proof.
  intros key pchunks o rchunks buf Hkey Hlen Ho Hbuf.
  pose proof (write_all_stream pchunks (NewXorWriter [] key) Hkey) as Hw.
  cbn [NewXorWriter wkey woffset writer app Z.add] in Hw.
  specialize (Hw ltac:(lia) Hlen).
  split; [eexists; exact Hw|].
  intros w Hw'. rewrite Hw in Hw'. injection Hw' as <-.
  cbn [writer woffset].
  split.
  { rewrite (write_all_stream [concat pchunks] (NewXorWriter [] key));
      cbn [NewXorWriter wkey woffset writer app Z.add concat]; rewrite ?app_nil_r;
      trivial; lia. }
  split; [apply XorFacts.xor_stream_length|]. split; [reflexivity|].
  intros Hr.
  pose proof (length_skipn_le (Z.to_nat o) (xor_stream key 0 (concat pchunks))) as Hsk.
  rewrite XorFacts.xor_stream_length in Hsk.
  rewrite XorFacts.copy_xorReader; trivial; try lia.
  - cbn [app]. rewrite Hr, xor_stream_skipn. cbn [Z.add]. rewrite Z2Nat.id by lia.
    now rewrite XorFacts.xor_stream_involutive.
  - rewrite Hr. rewrite length_skipn, XorFacts.xor_stream_length. lia.
Qed.

Lemma xor_round_trip_witness :
  exists w,
    XorSession.write_all (NewXorWriter [] "key") [[72; 105]; [33; 10]] = Ok w /\
    writer w = [35; 12; 88; 97] /\
    copy_loop (calls [[88]; [97]]) (NewXorReader {| pending := [[88]; [97]] |} "key" 2)
      [0] []
    = Copied [33; 10].
Proof.
  destruct (xor_round_trip "key" [[72; 105]; [33; 10]] 2 [[88]; [97]] [0]) as [[w Hw] Hback];
    try discriminate; try (unfold Int64.max; cbn; lia).
  exists w. split; [exact Hw|].
  destruct (Hback w Hw) as (_ & _ & _ & Hread).
  vm_compute in Hw. injection Hw as <-.
  split; [reflexivity|]. apply Hread. reflexivity.
Defined.

(** X3: the cursor matters only modulo the key length.  For a non-empty key
    of length L, a reader constructed at offset o + k*L yields the same bytes
    as a reader constructed at o over the same source, as long as the
    positions stay non-negative int64 values. *)
Theorem xor_offset_period :
  forall (key : string) (o k : Z) (chunks : list (list Z)) (buf : list Z),
    key <> EmptyString ->
    0 <= o -> 0 <= k ->
    o + k * Z.of_nat (String.length key) + Z.of_nat (length (concat chunks))
      <= Int64.max ->
    buf <> [] ->
    copy_loop (calls chunks)
      (NewXorReader {| pending := chunks |} key (o + k * Z.of_nat (String.length key)))
      buf []
    = copy_loop (calls chunks) (NewXorReader {| pending := chunks |} key o) buf [].
Proof.
  intros key o k chunks buf Hkey Ho Hk Hmax Hbuf.
  assert (0 <= k * Z.of_nat (String.length key)) by (apply Z.mul_nonneg_nonneg; lia).
  rewrite !XorFacts.copy_xorReader by (trivial; lia).
  now rewrite xor_stream_period.
Qed.

Lemma xor_offset_period_witness :
  copy_loop (calls [[1; 2; 3; 4]])
    (NewXorReader {| pending := [[1; 2; 3; 4]] |} "key"
       (2 + 5 * Z.of_nat (String.length "key"))) [0; 0] []
  = copy_loop (calls [[1; 2; 3; 4]])
      (NewXorReader {| pending := [[1; 2; 3; 4]] |} "key" 2) [0; 0] [].
Proof.
  apply (xor_offset_period "key" 2 5 [[1; 2; 3; 4]] [0; 0]);
    try discriminate; unfold Int64.max; cbn; lia.
Defined.

End XorExtra.

(** ** The counter-mode stream: seeking, round trips, the IV slice *)

Module CtrExtra.
Import Ctr.

Lemma Forall_firstn_byte n : forall l, Forall is_byte l -> Forall is_byte (firstn n l).
Proof.
  induction n as [|n IH]; intros l H; [constructor|].
  destruct l as [|x l]; [constructor|]. inversion H; subst.
  cbn [firstn]. constructor; auto.
Qed.

Lemma Forall_skipn_byte n : forall l, Forall is_byte l -> Forall is_byte (skipn n l).
Proof.
  induction n as [|n IH]; intros l H; [assumption|].
  destruct l as [|x l]; [constructor|]. inversion H; subst. cbn [skipn]. auto.
Qed.

Lemma be_value_app a : forall l,
  be_value (a ++ l) = be_value a * 256 ^ Z.of_nat (length l) + be_value l.
Proof.
  intros l. induction l as [|x l IH] using rev_ind.
  - rewrite app_nil_r. cbn. lia.
  - rewrite app_assoc, !CtrFacts.be_value_snoc, IH, length_app, Nat.add_comm.
    cbn [length Nat.add]. rewrite Nat2Z.inj_succ, Z.pow_succ_r by lia. ring.
Qed.

(** The two halves of the counter NewCTRReader derives. *)
Lemma seek_counter_halves iv offset :
  length iv = 16%nat ->
  firstn 8 (seek_counter iv offset) = firstn 8 iv /\
  be_value (skipn 8 (seek_counter iv offset))
  = (be_value (skipn 8 iv) + offset / 16) mod 2 ^ 64.
Proof.
  intros Hlen. unfold seek_counter, BlockSize. split.
  - apply CtrFacts.firstn_prefix. now rewrite length_firstn, Hlen.
  - rewrite <- (Nat.add_0_r 8) at 1.
    rewrite CtrFacts.skipn_prefix by (now rewrite length_firstn, Hlen).
    cbn [skipn]. rewrite CtrFacts.be_value_bytes.
    change (256 ^ Z.of_nat 8) with (2 ^ 64). apply Z.mod_mod. lia.
Qed.

(** With a 16-byte IV NewCTRReader returns a reader at every offset, the
    negative ones included. *)
Lemma NewCTRReader_total src block iv offset :
  length iv = 16%nat -> exists r, NewCTRReader src block iv offset = Ok r.
Proof.
  intros Hlen. unfold NewCTRReader, NewCTR, BlockSize. rewrite Hlen.
  cbn [Nat.ltb Nat.leb Nat.sub].
  rewrite length_app, length_firstn, CtrFacts.be_bytes_length, Hlen.
  cbn [Nat.min Nat.add Z.of_nat Pos.of_succ_nat Pos.succ Z.eqb Pos.eqb rbind].
  eexists. reflexivity.
Qed.

(** A stored object read back from its IV prefix at offset [o]. *)
Lemma read_back block iv plaintext o rchunks buf :
  length iv = 16%nat -> Forall is_byte iv -> 0 <= o -> buf <> [] ->
  be_value (skipn 8 iv) + o / 16 < 2 ^ 64 ->
  let stored := iv ++ xor_keystream block iv 0 plaintext in
  concat rchunks = skipn (16 + Z.to_nat o) stored ->
  read_from block (firstn 16 stored) o rchunks buf
  = Ok (Copied (skipn (Z.to_nat o) plaintext)).
Proof.
  intros Hlen Hb Ho Hbuf Hnc stored Hr. subst stored.
  rewrite CtrFacts.firstn_prefix by assumption.
  rewrite CtrFacts.skipn_prefix in Hr by assumption.
  rewrite CtrFacts.read_from_at by assumption. rewrite Hr.
  rewrite CtrFacts.seek_counter_no_carry by assumption.
  rewrite CtrFacts.xor_keystream_shift, CtrFacts.xor_keystream_skipn.
  cbn [Nat.add]. do 2 f_equal.
  replace (16 * Z.to_nat (o / 16) + Z.to_nat (o mod 16))%nat with (Z.to_nat o).
  - apply CtrFacts.xor_keystream_involutive.
  - rewrite (Z.div_mod o 16) at 1 by lia.
    pose proof (Z.div_pos o 16 Ho ltac:(lia)).
    pose proof (Z.mod_pos_bound o 16 ltac:(lia)).
    rewrite Z2Nat.inj_add, Z2Nat.inj_mul by lia. reflexivity.
Qed.

(** X4: seek consistency of the counter-mode reader where the low 64 bits of
    the counter do not overflow.  For a 16-byte IV and an offset o >= 0 with
    IV_low64 + floor(o/16) < 2^64, a reader constructed at o over the bytes
    from o on yields what a reader constructed at 0 over all the bytes yields
    from its o-th byte on, whatever the chunking of the two sources and the
    buffers used; the output is as long as the input. *)
Theorem ctr_seek_consistency :
  forall (block : Block) (iv : list Z) (o : Z) (data : list Z)
         (chunks0 chunks1 : list (list Z)) (buf0 buf1 : list Z),
    length iv = 16%nat ->
    Forall is_byte iv ->
    0 <= o ->
    be_value (skipn 8 iv) + o / 16 < 2 ^ 64 ->
    concat chunks0 = data ->
    concat chunks1 = skipn (Z.to_nat o) data ->
    buf0 <> [] -> buf1 <> [] ->
    exists whole,
      read_from block iv 0 chunks0 buf0 = Ok (Copied whole) /\
      length whole = length data /\
      read_from block iv o chunks1 buf1 = Ok (Copied (skipn (Z.to_nat o) whole)).
Proof.
  intros block iv o data chunks0 chunks1 buf0 buf1 Hlen Hb Ho Hnc H0 H1 Hb0 Hb1.
  rewrite !CtrFacts.read_from_at by (trivial; lia).
  rewrite H0, H1, CtrFacts.seek_counter_0 by assumption.
  change (Z.to_nat (0 mod 16)) with 0%nat.
  eexists. split; [reflexivity|]. split; [apply CtrFacts.xor_keystream_length|].
  rewrite CtrFacts.seek_counter_no_carry by assumption.
  rewrite CtrFacts.xor_keystream_shift, CtrFacts.xor_keystream_skipn.
  cbn [Nat.add]. do 3 f_equal.
  rewrite (Z.div_mod o 16) at 3 by lia.
  pose proof (Z.div_pos o 16 Ho ltac:(lia)).
  pose proof (Z.mod_pos_bound o 16 ltac:(lia)).
  rewrite Z2Nat.inj_add, Z2Nat.inj_mul by lia. reflexivity.
Qed.

Lemma ctr_seek_consistency_witness :
  exists whole,
    read_from (fun c => c) (repeat 7 16) 0 [repeat 1 20; repeat 2 20] [0; 0; 0]
    = Ok (Copied whole) /\
    length whole = length (repeat 1 20 ++ repeat 2 20) /\
    read_from (fun c => c) (repeat 7 16) 21 [repeat 2 5; repeat 2 14] [0]
    = Ok (Copied (skipn (Z.to_nat 21) whole)).
Proof.
  apply (ctr_seek_consistency (fun c => c) (repeat 7 16) 21 (repeat 1 20 ++ repeat 2 20)
           [repeat 1 20; repeat 2 20] [repeat 2 5; repeat 2 14] [0; 0; 0] [0]);
    try discriminate; try reflexivity; try lia.
  repeat constructor; unfold is_byte; lia.
Defined.

(** X5: round trip of the counter-mode writer and reader.  With a 16-byte
    random IV the writer's output is the IV followed by as many ciphertext
    bytes as the plaintext has, the same for every chunking of the Write
    calls; read back from the IV prefix at an offset o >= 0 with
    IV_low64 + floor(o/16) < 2^64, over the stored bytes from 16 + o on, it is
    the plaintext from o on. *)
Theorem ctr_round_trip :
  forall (block : Block) (iv : list Z) (pchunks : list (list Z)) (o : Z)
         (rchunks : list (list Z)) (buf : list Z),
    length iv = 16%nat ->
    Forall is_byte iv ->
    0 <= o ->
    be_value (skipn 8 iv) + o / 16 < 2 ^ 64 ->
    buf <> [] ->
    (exists w, NewCTRWriter [] block (Some iv) = Ok (Some (w, iv))) /\
    (forall w iv',
       NewCTRWriter [] block (Some iv) = Ok (Some (w, iv')) ->
       let stored := writer (write_all w pchunks) in
       iv' = iv /\
       stored = writer (write_all w [concat pchunks]) /\
       length stored = (16 + length (concat pchunks))%nat /\
       firstn 16 stored = iv /\
       (concat rchunks = skipn (16 + Z.to_nat o) stored ->
        read_from block (firstn 16 stored) o rchunks buf
        = Ok (Copied (skipn (Z.to_nat o) (concat pchunks))))).
Proof.
  intros block iv pchunks o rchunks buf Hlen Hb Ho Hnc Hbuf.
  pose proof (CtrFacts.NewCTRWriter_at block iv Hlen) as Hnew.
  split; [eexists; exact Hnew|].
  intros w iv' Hw. rewrite Hnew in Hw. injection Hw as <- <-.
  cbn zeta. rewrite !CtrFacts.write_all_at. cbn [writer concat].
  rewrite app_nil_r.
  split; [reflexivity|]. split; [reflexivity|].
  split; [now rewrite length_app, CtrFacts.xor_keystream_length, Hlen|].
  split; [now apply CtrFacts.firstn_prefix|].
  intros Hr. now apply read_back.
Qed.

Lemma ctr_round_trip_witness :
  exists w,
    NewCTRWriter [] (fun c => c) (Some (repeat 7 16)) = Ok (Some (w, repeat 7 16)) /\
    length (writer (write_all w [repeat 65 10; repeat 66 30])) = (16 + 40)%nat /\
    read_from (fun c => c) (firstn 16 (writer (write_all w [repeat 65 10; repeat 66 30])))
      21 [skipn (16 + 21) (writer (write_all w [repeat 65 10; repeat 66 30]))] [0; 0]
    = Ok (Copied (repeat 66 19)).
Proof.
  destruct (ctr_round_trip (fun c => c) (repeat 7 16) [repeat 65 10; repeat 66 30] 21
              [skipn (16 + 21)
                 (repeat 7 16 ++
                  xor_keystream (fun c => c) (repeat 7 16) 0 (repeat 65 10 ++ repeat 66 30))]
              [0; 0])
    as [[w Hw] Hback]; try discriminate; try reflexivity; try lia.
  { repeat constructor; unfold is_byte; lia. }
  exists w. split; [exact Hw|].
  destruct (Hback w _ Hw) as (_ & _ & Hlen & _ & Hread).
  split; [exact Hlen|].
  vm_compute in Hw. injection Hw as <-.
  apply Hread. vm_compute. reflexivity.
Defined.

(** X6: NewCTRReader returns a reader exactly for 16-byte IVs.  With a
    16-byte IV it succeeds at every offset; with fewer than 8 bytes the slice
    expression panics; with any other length cipher.NewCTR panics. *)
Theorem NewCTRReader_iv_length :
  forall (src : Reader) (block : Block) (iv : list Z) (offset : Z),
    (length iv = 16%nat -> exists r, NewCTRReader src block iv offset = Ok r) /\
    ((length iv < 8)%nat -> NewCTRReader src block iv offset = Panic SliceBounds) /\
    ((8 <= length iv)%nat -> length iv <> 16%nat ->
       NewCTRReader src block iv offset = Panic IVLength).
Proof.
  intros src block iv offset. split; [apply NewCTRReader_total|]. split.
  - intros Hlt. unfold NewCTRReader.
    destruct (Nat.ltb_spec (length iv) 8); [reflexivity | lia].
  - intros Hge Hne. unfold NewCTRReader, NewCTR, BlockSize.
    destruct (Nat.ltb_spec (length iv) 8); [lia|].
    rewrite length_app, length_firstn, CtrFacts.be_bytes_length.
    destruct (Z.eqb_spec (Z.of_nat (Nat.min (length iv - 8) (length iv) + 8)) 16);
      [lia | reflexivity].
Qed.

Lemma NewCTRReader_iv_length_witness :
  NewCTRReader {| pending := [] |} (fun c => c) (repeat 7 12) 0 = Panic IVLength.
Proof.
  apply (NewCTRReader_iv_length {| pending := [] |} (fun c => c) (repeat 7 12) 0);
    cbn; [lia | discriminate].
Defined.

(** X7: NewCTRReader overwrites the caller's IV slice with the counter it
    derives.  For a 16-byte IV of bytes the slice is left as it was exactly
    when floor(o/16) is a multiple of 2^64 (for offsets below 2^68: when
    o < 16); a second reader constructed from the same slice at offset o2
    starts floor(o1/16) + floor(o2/16) blocks after the original IV, not
    floor(o2/16). *)
Theorem NewCTRReader_overwrites_iv :
  forall (src1 src2 : Reader) (block : Block) (iv : list Z) (o1 o2 : Z),
    length iv = 16%nat ->
    Forall is_byte iv ->
    0 <= o1 -> 0 <= o2 ->
    exists r1 r2,
      NewCTRReader src1 block iv o1 = Ok r1 /\
      NewCTRReader src2 block (Ctr.iv r1) o2 = Ok r2 /\
      (Ctr.iv r1 = iv <-> (o1 / 16) mod 2 ^ 64 = 0) /\
      firstn 8 (Ctr.iv r2) = firstn 8 iv /\
      be_value (skipn 8 (Ctr.iv r2))
      = (be_value (skipn 8 iv) + o1 / 16 + o2 / 16) mod 2 ^ 64.
Proof.
  intros src1 src2 block iv o1 o2 Hlen Hb Ho1 Ho2.
  pose proof (CtrFacts.seek_counter_length iv o1 Hlen) as Hlen1.
  destruct (seek_counter_halves iv o1 Hlen) as [Hhi1 Hlo1].
  destruct (seek_counter_halves (seek_counter iv o1) o2 Hlen1) as [Hhi2 Hlo2].
  do 2 eexists.
  split; [now apply CtrFacts.NewCTRReader_at|]. cbn [Ctr.iv].
  split; [now apply CtrFacts.NewCTRReader_at|]. cbn [Ctr.iv].
  assert (Hlow : Forall is_byte (skipn 8 iv)) by now apply Forall_skipn_byte.
  pose proof (CtrFacts.be_value_bound _ Hlow) as Hv.
  rewrite length_skipn, Hlen in Hv. change (256 ^ Z.of_nat (16 - 8)) with (2 ^ 64) in Hv.
  split; [|split].
  - split.
    + intros E. rewrite E in Hlo1.
      rewrite <- (Z.mod_small (be_value (skipn 8 iv)) (2 ^ 64)) in Hlo1 at 1 by lia.
      assert (Hd : ((be_value (skipn 8 iv) + o1 / 16) - be_value (skipn 8 iv)) mod 2 ^ 64 = 0).
      { rewrite Zminus_mod, <- Hlo1, Z.sub_diag. reflexivity. }
      rewrite <- Hd. f_equal. lia.
    + intros Hz. unfold seek_counter, BlockSize.
      rewrite <- Z.add_mod_idemp_r, Hz, Z.add_0_r, Z.mod_small by lia.
      rewrite CtrFacts.low64_bytes by assumption. apply firstn_skipn.
  - now rewrite Hhi2.
  - rewrite Hlo2, Hlo1, Z.add_mod_idemp_l by lia. reflexivity.
Qed.

Lemma NewCTRReader_overwrites_iv_witness :
  exists r1 r2,
    NewCTRReader {| pending := [] |} (fun c => c) (repeat 7 16) 40 = Ok r1 /\
    NewCTRReader {| pending := [] |} (fun c => c) (Ctr.iv r1) 16 = Ok r2 /\
    (Ctr.iv r1 = repeat 7 16 <-> (40 / 16) mod 2 ^ 64 = 0) /\
    firstn 8 (Ctr.iv r2) = firstn 8 (repeat 7 16) /\
    be_value (skipn 8 (Ctr.iv r2))
    = (be_value (skipn 8 (repeat 7 16)) + 40 / 16 + 16 / 16) mod 2 ^ 64.
Proof.
  apply (NewCTRReader_overwrites_iv {| pending := [] |} {| pending := [] |} (fun c => c)
           (repeat 7 16) 40 16); try reflexivity; try lia.
  repeat constructor; unfold is_byte; lia.
Defined.

(** The IV of the revised writer: 12 random bytes and four zero bytes; its low
    64 bits leave room for 2^32 blocks. *)
Lemma revised_iv rnd :
  length rnd = 16%nat -> Forall is_byte rnd ->
  let iv := firstn 12 rnd ++ be_bytes 4 0 in
  length iv = 16%nat /\ Forall is_byte iv /\
  be_value (skipn 8 iv) <= 2 ^ 64 - 2 ^ 32.
Proof.
  intros Hlen Hb iv. subst iv. change (be_bytes 4 0) with [0; 0; 0; 0].
  split; [now rewrite length_app, length_firstn, Hlen|]. split.
  - apply Forall_app. split; [now apply Forall_firstn_byte|].
    repeat constructor; unfold is_byte; lia.
  - rewrite skipn_app, length_firstn, Hlen.
    change (skipn (8 - Nat.min 12 16) [0; 0; 0; 0]) with [0; 0; 0; 0].
    rewrite be_value_app. cbn [length].
    assert (Hmid : Forall is_byte (skipn 8 (firstn 12 rnd)))
      by now apply Forall_skipn_byte, Forall_firstn_byte.
    pose proof (CtrFacts.be_value_bound _ Hmid) as Hv.
    rewrite length_skipn, length_firstn, Hlen in Hv.
    change (256 ^ Z.of_nat (Nat.min 12 16 - 8)) with (2 ^ 32) in Hv.
    change (be_value [0; 0; 0; 0]) with 0.
    change (256 ^ Z.of_nat 4) with 4294967296.
    change (2 ^ 32) with 4294967296 in *.
    change (2 ^ 64) with 18446744073709551616. lia.
Qed.

(** X8: the revised writer (second copy of ctr.go) stores the first 12 random
    bytes followed by four zero bytes as the IV, and what it writes reads
    back as the plaintext from o on at every offset 0 <= o < 2^36: with the
    low 32 bits of the counter zeroed the low 64 bits cannot overflow within
    2^32 blocks. *)
Theorem revised_writer_round_trip :
  forall (block : Block) (rnd : list Z) (pchunks : list (list Z)) (o : Z)
         (rchunks : list (list Z)) (buf : list Z),
    length rnd = 16%nat ->
    Forall is_byte rnd ->
    0 <= o < 2 ^ 36 ->
    buf <> [] ->
    (exists w, CtrRev.NewCTRWriter [] block (Some rnd) = Ok (Some w)) /\
    (forall w,
       CtrRev.NewCTRWriter [] block (Some rnd) = Ok (Some w) ->
       let stored := writer (write_all w pchunks) in
       firstn 12 stored = firstn 12 rnd /\
       skipn 12 (firstn 16 stored) = [0; 0; 0; 0] /\
       length stored = (16 + length (concat pchunks))%nat /\
       (concat rchunks = skipn (16 + Z.to_nat o) stored ->
        read_from block (firstn 16 stored) o rchunks buf
        = Ok (Copied (skipn (Z.to_nat o) (concat pchunks))))).
Proof.
  intros block rnd pchunks o rchunks buf Hlen Hb Ho Hbuf.
  destruct (revised_iv rnd Hlen Hb) as (Hlen' & Hb' & Hlow).
  set (iv := firstn 12 rnd ++ be_bytes 4 0) in *.
  assert (Hnew : CtrRev.NewCTRWriter [] block (Some rnd)
                 = Ok (Some {| wstream := stream_at block iv 0; writer := iv |})).
  { unfold CtrRev.NewCTRWriter. change (Z.to_nat BlockSize) with 16%nat.
    rewrite Hlen. cbn [Nat.ltb Nat.leb].
    replace (firstn 16 rnd) with rnd by (rewrite <- Hlen; symmetry; apply firstn_all).
    rewrite Hlen. cbn [Nat.sub]. fold iv.
    unfold NewCTR, BlockSize. rewrite Hlen'. reflexivity. }
  split; [eexists; exact Hnew|].
  intros w Hw. rewrite Hnew in Hw. injection Hw as <-.
  cbn zeta. rewrite CtrFacts.write_all_at. cbn [writer].
  assert (H12 : firstn 12 iv = firstn 12 rnd).
  { subst iv. apply CtrFacts.firstn_prefix. now rewrite length_firstn, Hlen. }
  split.
  { rewrite <- H12. rewrite firstn_app, Hlen'. cbn [Nat.sub firstn].
    now rewrite app_nil_r. }
  split.
  { rewrite CtrFacts.firstn_prefix by assumption. subst iv.
    rewrite <- (Nat.add_0_r 12) at 1.
    rewrite CtrFacts.skipn_prefix by (now rewrite length_firstn, Hlen). reflexivity. }
  split; [now rewrite length_app, CtrFacts.xor_keystream_length, Hlen'|].
  intros Hr. apply read_back; trivial; try lia.
  assert (o / 16 < 2 ^ 32).
  { apply Z.div_lt_upper_bound; [lia|]. change (16 * 2 ^ 32) with (2 ^ 36). lia. }
  lia.
Qed.

Lemma revised_writer_round_trip_witness :
  exists w,
    CtrRev.NewCTRWriter [] (fun c => c) (Some (repeat 255 16)) = Ok (Some w) /\
    firstn 16 (writer (write_all w [repeat 65 40]))
    = repeat 255 12 ++ [0; 0; 0; 0] /\
    read_from (fun c => c) (firstn 16 (writer (write_all w [repeat 65 40]))) 21
      [skipn (16 + 21) (writer (write_all w [repeat 65 40]))] [0; 0]
    = Ok (Copied (repeat 65 19)).
Proof.
  destruct (revised_writer_round_trip (fun c => c) (repeat 255 16) [repeat 65 40] 21
              [skipn (16 + 21)
                 (repeat 255 12 ++ [0; 0; 0; 0] ++
                  xor_keystream (fun c => c) (repeat 255 12 ++ [0; 0; 0; 0]) 0
                    (repeat 65 40))]
              [0; 0])
    as [[w Hw] Hback]; try discriminate; try reflexivity; try lia.
  { repeat constructor; unfold is_byte; lia. }
  exists w. split; [exact Hw|].
  destruct (Hback w Hw) as (_ & _ & _ & Hread).
  vm_compute in Hw. injection Hw as <-.
  split; [reflexivity|]. apply Hread. vm_compute. reflexivity.
Defined.

End CtrExtra.

(** ** The handlers: statuses, conditional headers, served bodies *)

Module HttpExtra.
Import Http HttpStatuses.

Section Extra.

Variable ParseTime : string -> option Z.
Variable FormatTime : Z -> string.

Ltac unfold_run :=
  unfold run, ServeXORFile, ServeCTRFile, hbind, callHeadObject, callGetRangeObject,
    guard, respond, hret; cbn [app].




Lemma copy_buffer_nonempty : repeat 0 copyBufferSize <> [].
Proof.
  assert (H : (0 < copyBufferSize)%nat) by (unfold copyBufferSize; lia).
  destruct copyBufferSize; [lia | discriminate].
Qed.

(** X10: the If-Modified-Since check, on both routes.  Once the metadata
    fetch has succeeded, a header that does not parse is answered 400, and a
    header whose time is not before the object's last-modified time (the
    equal time included) is answered 304; in both cases no ranged fetch is
    issued.  A header with an earlier time lets the request through. *)
Theorem if_modified_since :
  forall (h : HTTPFileServer) (r : Request) (route : string) (headObj : HeadObjectOutput),
    route = "/xor/"%string \/ route = "/ctr/"%string ->
    let key := TrimPrefix (URLPath r) route in
    let x := if String.eqb route "/xor/"
             then run (ServeXORFile ParseTime FormatTime h r)
             else run (ServeCTRFile ParseTime FormatTime h r) in
    HeadObject (s3Client h) key = inr headObj ->
    IfModifiedSince r <> EmptyString ->
    (ParseTime (IfModifiedSince r) = None ->
       x = ([CallHeadObject key],
            http_Error "invalid If-Modified-Since header" StatusBadRequest)) /\
    (forall t, ParseTime (IfModifiedSince r) = Some t ->
       LastModified headObj <= t ->
       x = ([CallHeadObject key], WriteHeader StatusNotModified)) /\
    (forall t, ParseTime (IfModifiedSince r) = Some t ->
       t < LastModified headObj ->
       ifModifiedSince_check ParseTime r headObj = None).
Proof.
  intros h r route headObj Hroute key x Hhead Hne.
  assert (Hcheck :
    (ParseTime (IfModifiedSince r) = None ->
       ifModifiedSince_check ParseTime r headObj
       = Some (http_Error "invalid If-Modified-Since header" StatusBadRequest)) /\
    (forall t, ParseTime (IfModifiedSince r) = Some t -> LastModified headObj <= t ->
       ifModifiedSince_check ParseTime r headObj = Some (WriteHeader StatusNotModified)) /\
    (forall t, ParseTime (IfModifiedSince r) = Some t -> t < LastModified headObj ->
       ifModifiedSince_check ParseTime r headObj = None)).
  { unfold ifModifiedSince_check.
    destruct (String.eqb_spec (IfModifiedSince r) ""); [congruence|].
    split; [intros ->; reflexivity|].
    split; intros t -> Ht; destruct (Z.gtb_spec (LastModified headObj) t);
      try reflexivity; lia. }
  destruct Hcheck as (H400 & H304 & Hpass).
  assert (Hrun : forall resp, ifModifiedSince_check ParseTime r headObj = Some resp ->
                              x = ([CallHeadObject key], resp)).
  { intros resp Hc. subst x key.
    destruct Hroute as [-> | ->]; cbn [String.eqb Ascii.eqb Bool.eqb];
      unfold_run; rewrite Hhead, Hc; reflexivity. }
  split; [intros Hp; apply Hrun; auto|].
  split; [intros t Hp Ht; apply Hrun; eauto | assumption].
Qed.

(** X11: the If-Unmodified-Since check is strict, on both routes.  For a
    request that has reached the body fetch, a header whose time is not after
    the fetched object's last-modified time (the equal time included) is
    answered 412 after the fetch, without a body; a header that does not
    parse is answered 400. *)
Theorem if_unmodified_since :
  forall (h : HTTPFileServer) (r : Request),
    IfUnmodifiedSince r <> EmptyString ->
    (forall headObj getObj,
       let key := TrimPrefix (URLPath r) "/xor/" in
       HeadObject (s3Client h) key = inr headObj ->
       ifModifiedSince_check ParseTime r headObj = None ->
       let rg := xor_range (ContentLength headObj) (Range r) in
       let body := ("bytes=" ++ fmt_d (range_start rg) ++ "-"
                      ++ fmt_d (range_end rg))%string in
       range_start rg < range_end rg ->
       GetRangeObject (s3Client h) key body = inr getObj ->
       let x := run (ServeXORFile ParseTime FormatTime h r) in
       let log := [CallHeadObject key; CallGetRangeObject key body] in
       (ParseTime (IfUnmodifiedSince r) = None ->
          x = (log, http_Error "invalid If-Unmodified-Since header" StatusBadRequest)) /\
       (forall t, ParseTime (IfUnmodifiedSince r) = Some t ->
          t <= gLastModified getObj ->
          x = (log, WriteHeader StatusPreconditionFailed))) /\
    (forall headObj ivObj iv getObj,
       let key := TrimPrefix (URLPath r) "/ctr/" in
       HeadObject (s3Client h) key = inr headObj ->
       ifModifiedSince_check ParseTime r headObj = None ->
       GetRangeObject (s3Client h) key ivRange = inr ivObj ->
       ReadFull (Body ivObj) 16 = Some iv ->
       let rg := ctr_range (Int64.sub (ContentLength headObj) Ctr.BlockSize) (Range r) in
       let body := ("bytes=" ++ fmt_d (Int64.add (range_start rg) Ctr.BlockSize) ++ "-"
                      ++ fmt_d (Int64.add (range_end rg) Ctr.BlockSize))%string in
       range_start rg < range_end rg ->
       GetRangeObject (s3Client h) key body = inr getObj ->
       let c := run (ServeCTRFile ParseTime FormatTime h r) in
       let log := [CallHeadObject key; CallGetRangeObject key ivRange;
                   CallGetRangeObject key body] in
       (ParseTime (IfUnmodifiedSince r) = None ->
          c = (log, http_Error "invalid If-Unmodified-Since header" StatusBadRequest)) /\
       (forall t, ParseTime (IfUnmodifiedSince r) = Some t ->
          t <= gLastModified getObj ->
          c = (log, WriteHeader StatusPreconditionFailed))).
Proof.
  intros h r Hne.
  assert (Hcheck : forall getObj,
    (ParseTime (IfUnmodifiedSince r) = None ->
       ifUnmodifiedSince_check ParseTime r getObj
       = Some (http_Error "invalid If-Unmodified-Since header" StatusBadRequest)) /\
    (forall t, ParseTime (IfUnmodifiedSince r) = Some t -> t <= gLastModified getObj ->
       ifUnmodifiedSince_check ParseTime r getObj
       = Some (WriteHeader StatusPreconditionFailed))).
  { intros getObj. unfold ifUnmodifiedSince_check.
    destruct (String.eqb_spec (IfUnmodifiedSince r) ""); [congruence|].
    split; [intros ->; reflexivity|].
    intros t -> Ht. destruct (Z.ltb_spec (gLastModified getObj) t); [lia | reflexivity]. }
  split.
  - intros headObj getObj key Hhead Hims rg body Hlt Hget x log. subst x.
    rewrite (HttpFacts.ServeXORFile_resolved ParseTime FormatTime h r headObj Hhead Hims).
    fold key rg body. cbn zeta.
    destruct (Z.geb_spec (range_start rg) (range_end rg)); [lia|].
    rewrite Hget. destruct (Hcheck getObj) as [H400 H412].
    split; [intros Hp; now rewrite (H400 Hp)|].
    intros t Hp Ht. now rewrite (H412 t Hp Ht).
  - intros headObj ivObj iv getObj key Hhead Hims Hiv Hread rg body Hlt Hget c log.
    subst c.
    rewrite (HttpFacts.ServeCTRFile_resolved ParseTime FormatTime h r headObj ivObj iv
               Hhead Hims Hiv Hread).
    fold key rg body. cbn zeta.
    destruct (Z.geb_spec (range_start rg) (range_end rg)); [lia|].
    rewrite Hget. destruct (Hcheck getObj) as [H400 H412].
    split; [intros Hp; now rewrite (H400 Hp)|].
    intros t Hp Ht. now rewrite (H412 t Hp Ht).
Qed.

Lemma xor_keystream_firstn block c n : forall pos src,
  firstn n (Ctr.xor_keystream block c pos src)
  = Ctr.xor_keystream block c pos (firstn n src).
Proof.
  induction n as [|n IH]; intros pos src; [reflexivity|].
  destruct src as [|x src]; [reflexivity|].
  cbn [Ctr.xor_keystream firstn]. now rewrite IH.
Qed.

(** X12: end to end on the repeating-key route.  If the stored object is
    what the repeating-key writer forwarded for a plaintext, the store
    reports its size and answers the ranged fetch with the requested bytes
    start..end of it, and the key is not empty, then a request that passes
    the checks is served with the plaintext bytes start..end as its body,
    copied to the end without a fault. *)
Theorem xor_serves_plaintext_range :
  forall (h : HTTPFileServer) (r : Request) (pchunks : list (list Z))
         (w : Xor.xorWriter) (headObj : HeadObjectOutput) (getObj : GetObjectOutput),
    xorKey h <> EmptyString ->
    XorSession.write_all (Xor.NewXorWriter [] (xorKey h)) pchunks = Ok w ->
    Z.of_nat (length (concat pchunks)) <= Int64.max ->
    let key := TrimPrefix (URLPath r) "/xor/" in
    HeadObject (s3Client h) key = inr headObj ->
    ContentLength headObj = Z.of_nat (length (Xor.writer w)) ->
    ifModifiedSince_check ParseTime r headObj = None ->
    let rg := xor_range (ContentLength headObj) (Range r) in
    let start := range_start rg in
    let end_ := range_end rg in
    start < end_ ->
    GetRangeObject (s3Client h) key ("bytes=" ++ fmt_d start ++ "-" ++ fmt_d end_)
    = inr getObj ->
    concat (pending (Body getObj))
    = firstn (Z.to_nat (end_ - start + 1)) (skipn (Z.to_nat start) (Xor.writer w)) ->
    ifUnmodifiedSince_check ParseTime r getObj = None ->
    snd (run (ServeXORFile ParseTime FormatTime h r))
    = served FormatTime headObj getObj start end_ (ContentLength headObj)
        (range_partial rg)
        (Copied (firstn (Z.to_nat (end_ - start + 1))
                   (skipn (Z.to_nat start) (concat pchunks)))).
Proof.
  intros h r pchunks w headObj getObj Hkey Hw Hmax key Hhead Hsize Hims rg start end_
    Hlt Hget Hbody Hius.
  rewrite (XorExtra.write_all_stream pchunks (Xor.NewXorWriter [] (xorKey h))) in Hw
    by (cbn; trivial; lia).
  injection Hw as <-. cbn [Xor.writer Xor.NewXorWriter app] in *.
  rewrite XorFacts.xor_stream_length in Hsize.
  rewrite (HttpFacts.ServeXORFile_resolved ParseTime FormatTime h r headObj Hhead Hims).
  fold key rg start end_. cbn zeta.
  destruct (Z.geb_spec start end_); [lia|].
  rewrite Hget, Hius. cbn [snd]. f_equal.
  assert (Hbound : 0 <= start <= end_ /\ end_ <= ContentLength headObj).
  { apply (HttpFacts.xor_range_bound (ContentLength headObj) (Range r)); [|assumption].
    unfold Int64.in_range, Int64.min, Int64.max in *. lia. }
  destruct (Body getObj) as [chunks]. cbn [pending] in *.
  unfold Copy.
  rewrite XorFacts.copy_xorReader; trivial; try lia; try apply copy_buffer_nonempty.
  - cbn [app]. rewrite Hbody.
    rewrite XorExtra.xor_stream_skipn, XorExtra.xor_stream_firstn. cbn [Z.add].
    rewrite Z2Nat.id by lia. now rewrite XorFacts.xor_stream_involutive.
  - rewrite Hbody, length_firstn, length_skipn, XorFacts.xor_stream_length. lia.
Qed.

(** X13: end to end on the counter-mode route.  If the stored object is what
    the counter-mode writer wrote for a plaintext with the IV it drew, the
    store reports its size, answers the IV fetch with its first 16 bytes and
    the ranged fetch with the requested bytes of it, and the low 64 bits of
    the IV plus floor(start/16) stay below 2^64, then a request that passes
    the checks is served with the plaintext bytes start..end as its body. *)
Theorem ctr_serves_plaintext_range :
  forall (h : HTTPFileServer) (r : Request) (iv : list Z) (pchunks : list (list Z))
         (w : Ctr.ctrWriter) (headObj : HeadObjectOutput)
         (ivObj getObj : GetObjectOutput),
    length iv = 16%nat ->
    Forall Ctr.is_byte iv ->
    Ctr.NewCTRWriter [] (cipherBlock h) (Some iv) = Ok (Some (w, iv)) ->
    let stored := Ctr.writer (Ctr.write_all w pchunks) in
    let key := TrimPrefix (URLPath r) "/ctr/" in
    HeadObject (s3Client h) key = inr headObj ->
    ContentLength headObj = Z.of_nat (length stored) ->
    Z.of_nat (length stored) <= Int64.max ->
    ifModifiedSince_check ParseTime r headObj = None ->
    GetRangeObject (s3Client h) key ivRange = inr ivObj ->
    ReadFull (Body ivObj) 16 = Some (firstn 16 stored) ->
    let L := Int64.sub (ContentLength headObj) Ctr.BlockSize in
    let rg := ctr_range L (Range r) in
    let start := range_start rg in
    let end_ := range_end rg in
    start < end_ ->
    Ctr.be_value (skipn 8 iv) + start / 16 < 2 ^ 64 ->
    GetRangeObject (s3Client h) key
      ("bytes=" ++ fmt_d (Int64.add start Ctr.BlockSize) ++ "-"
         ++ fmt_d (Int64.add end_ Ctr.BlockSize))
    = inr getObj ->
    concat (pending (Body getObj))
    = firstn (Z.to_nat (end_ - start + 1)) (skipn (16 + Z.to_nat start) stored) ->
    ifUnmodifiedSince_check ParseTime r getObj = None ->
    L = Z.of_nat (length (concat pchunks)) /\
    snd (run (ServeCTRFile ParseTime FormatTime h r))
    = served FormatTime headObj getObj start end_ L (range_partial rg)
        (Copied (firstn (Z.to_nat (end_ - start + 1))
                   (skipn (Z.to_nat start) (concat pchunks)))).
Proof.
  intros h r iv pchunks w headObj ivObj getObj Hlen Hb Hw stored key Hhead Hsize Hmax
    Hims Hiv Hread L rg start end_ Hlt Hnc Hget Hbody Hius.
  rewrite (CtrFacts.NewCTRWriter_at (cipherBlock h) iv Hlen) in Hw.
  injection Hw as <-.
  assert (Hst : stored = iv ++ Ctr.xor_keystream (cipherBlock h) iv 0 (concat pchunks)).
  { subst stored. now rewrite CtrFacts.write_all_at. }
  clearbody stored. subst stored.
  rewrite length_app, CtrFacts.xor_keystream_length, Hlen in Hsize, Hmax.
  rewrite (CtrFacts.firstn_prefix iv _ 16 Hlen) in Hread.
  rewrite (CtrFacts.skipn_prefix iv _ 16 _ Hlen) in Hbody.
  assert (HL : L = Z.of_nat (length (concat pchunks))).
  { subst L. unfold Ctr.BlockSize. rewrite Hsize.
    rewrite Int64Facts.sub_id;
      unfold Int64.in_range, Int64.min, Int64.max in *; lia. }
  split; [assumption|].
  rewrite (HttpFacts.ServeCTRFile_resolved ParseTime FormatTime h r headObj ivObj iv
             Hhead Hims Hiv Hread).
  fold key L rg start end_. cbn zeta.
  destruct (Z.geb_spec start end_); [lia|].
  rewrite Hget, Hius. cbn [snd]. f_equal.
  assert (Hnn : 0 <= start) by apply (proj2 (HttpFacts.range_start_nonneg L (Range r))).
  destruct (Body getObj) as [chunks]. cbn [pending] in *.
  unfold Copy.
  rewrite CtrFacts.copy_ctrReader by (try apply copy_buffer_nonempty; lia).
  cbn [app]. rewrite Hbody.
  rewrite CtrFacts.seek_counter_no_carry by assumption.
  rewrite CtrFacts.xor_keystream_shift, CtrFacts.xor_keystream_skipn.
  rewrite xor_keystream_firstn. cbn [Nat.add].
  replace (16 * Z.to_nat (start / 16) + Z.to_nat (start mod 16))%nat
    with (Z.to_nat start).
  - now rewrite CtrFacts.xor_keystream_involutive.
  - rewrite (Z.div_mod start 16) at 1 by lia.
    pose proof (Z.div_pos start 16 Hnn ltac:(lia)).
    pose proof (Z.mod_pos_bound start 16 ltac:(lia)).
    rewrite Z2Nat.inj_add, Z2Nat.inj_mul by lia. reflexivity.
Qed.

(** X14: with an empty repeating-key key a request that passes every check
    has its status and headers written (200 or 206) and then faults: the
    first Read that delivers a byte divides by the key length zero, and the
    body stays empty. *)
Theorem xor_empty_key_faults_after_status :
  forall (h : HTTPFileServer) (r : Request) (headObj : HeadObjectOutput)
         (getObj : GetObjectOutput) (c : list Z) (cs : list (list Z)),
    xorKey h = EmptyString ->
    let key := TrimPrefix (URLPath r) "/xor/" in
    HeadObject (s3Client h) key = inr headObj ->
    ifModifiedSince_check ParseTime r headObj = None ->
    let rg := xor_range (ContentLength headObj) (Range r) in
    range_start rg < range_end rg ->
    GetRangeObject (s3Client h) key
      ("bytes=" ++ fmt_d (range_start rg) ++ "-" ++ fmt_d (range_end rg))
    = inr getObj ->
    ifUnmodifiedSince_check ParseTime r getObj = None ->
    pending (Body getObj) = c :: cs ->
    c <> [] ->
    let resp := snd (run (ServeXORFile ParseTime FormatTime h r)) in
    body resp = Streamed (Panicked [] DivideByZero) /\
    (status resp = StatusOK \/ status resp = StatusPartialContent).
Proof.
  intros h r headObj getObj c cs Hkey key Hhead Hims rg Hlt Hget Hius Hpend Hc resp.
  subst resp.
  rewrite (HttpFacts.ServeXORFile_resolved ParseTime FormatTime h r headObj Hhead Hims).
  fold key rg. cbn zeta.
  destruct (Z.geb_spec (range_start rg) (range_end rg)); [lia|].
  rewrite Hget, Hius. cbn [snd]. split.
  - unfold served. destruct (range_partial rg); cbn [body]; f_equal.
    all: unfold Copy, calls; cbn [copy_loop Read Xor.xorReader_IOReader].
    all: unfold Xor.xorReader_Read, Xor.NewXorReader; cbn [Xor.reader Xor.key Xor.offset].
    all: rewrite Hkey; unfold Reader_Read; rewrite Hpend; cbn [rr_n rr_buf].
    all: pose proof copy_buffer_nonempty as Hbuf.
    all: destruct (repeat 0 copyBufferSize) as [|z buf]; [congruence|].
    all: destruct c as [|x c]; [congruence|]; reflexivity.
  - rewrite HttpFacts.served_status. destruct (range_partial rg); auto.
Qed.

(** X15: the ciphertext range of the counter-mode route.  For an object of
    stored size fileSize (an int64 >= 0), a request that passes the range
    check asks the store for bytes start+16 .. end+16 with
    16 <= start+16 < end+16 <= fileSize-1, after the metadata and the IV
    fetch; and when it is served, Content-Length is end-start+1, between 2
    and the logical size fileSize-16. *)
Theorem ctr_ciphertext_range :
  forall (h : HTTPFileServer) (r : Request) (headObj : HeadObjectOutput)
         (ivObj : GetObjectOutput) (iv : list Z),
    let key := TrimPrefix (URLPath r) "/ctr/" in
    HeadObject (s3Client h) key = inr headObj ->
    0 <= ContentLength headObj <= Int64.max ->
    ifModifiedSince_check ParseTime r headObj = None ->
    GetRangeObject (s3Client h) key ivRange = inr ivObj ->
    ReadFull (Body ivObj) 16 = Some iv ->
    let fileSize := ContentLength headObj in
    let rg := ctr_range (Int64.sub fileSize Ctr.BlockSize) (Range r) in
    let start := range_start rg in
    let end_ := range_end rg in
    start < end_ ->
    let c := run (ServeCTRFile ParseTime FormatTime h r) in
    let body := ("bytes=" ++ fmt_d (start + 16) ++ "-" ++ fmt_d (end_ + 16))%string in
    16 <= start + 16 < end_ + 16 /\ end_ + 16 <= fileSize - 1 /\
    fst c = [CallHeadObject key; CallGetRangeObject key ivRange;
             CallGetRangeObject key body] /\
    (forall getObj,
       GetRangeObject (s3Client h) key body = inr getObj ->
       ifUnmodifiedSince_check ParseTime r getObj = None ->
       In ("Content-Length"%string, fmt_d (end_ - start + 1)) (header (snd c)) /\
       2 <= end_ - start + 1 <= fileSize - 16).
Proof.
  intros h r headObj ivObj iv key Hhead Hsize Hims Hiv Hread fileSize rg start end_
    Hlt c body.
  assert (HL : Int64.sub fileSize Ctr.BlockSize = fileSize - 16).
  { apply Int64Facts.sub_id. subst fileSize.
    unfold Ctr.BlockSize, Int64.in_range, Int64.min, Int64.max in *. lia. }
  assert (Hinv : 0 <= start <= end_ /\ end_ < fileSize - 16).
  { rewrite <- HL.
    apply (HttpFacts.ctr_range_invariant (Int64.sub fileSize Ctr.BlockSize) (Range r));
      [|assumption].
    rewrite HL. subst fileSize.
    unfold Int64.in_range, Int64.min, Int64.max in *. lia. }
  assert (Hs : Int64.add start Ctr.BlockSize = start + 16)
    by (apply Int64Facts.add_id; subst fileSize;
        unfold Ctr.BlockSize, Int64.in_range, Int64.min, Int64.max in *; lia).
  assert (He : Int64.add end_ Ctr.BlockSize = end_ + 16)
    by (apply Int64Facts.add_id; subst fileSize;
        unfold Ctr.BlockSize, Int64.in_range, Int64.min, Int64.max in *; lia).
  split; [lia|]. split; [lia|].
  subst c.
  rewrite (HttpFacts.ServeCTRFile_resolved ParseTime FormatTime h r headObj ivObj iv
             Hhead Hims Hiv Hread).
  fold key fileSize rg start end_. cbn zeta. rewrite Hs, He. fold body.
  destruct (Z.geb_spec start end_); [lia|].
  split.
  - destruct (GetRangeObject (s3Client h) key body) as [err|getObj]; [reflexivity|].
    destruct (ifUnmodifiedSince_check ParseTime r getObj); reflexivity.
  - intros getObj Hget Hius. rewrite Hget, Hius. cbn [snd]. split; [|lia].
    assert (Hcl : Int64.add (Int64.sub end_ start) 1 = end_ - start + 1).
    { rewrite Int64Facts.sub_id, Int64Facts.add_id; trivial; subst fileSize;
        unfold Int64.in_range, Int64.min, Int64.max in *; lia. }
    unfold served. rewrite Hcl.
    destruct (range_partial rg); cbn [header];
      [apply in_or_app; left|]; cbn [In]; auto.
Qed.

Lemma Split_parts_no_dash s : forall part, In part (Split s "-") -> no_dash part = true.
Proof.
  induction s as [|c s IH]; intros part Hin; cbn [Split] in Hin.
  - destruct Hin as [<-|[]]. reflexivity.
  - destruct (Ascii.eqb c "-") eqn:E.
    + destruct Hin as [<-|Hin]; [reflexivity | now apply IH].
    + destruct (Split s "-") as [|x xs] eqn:Es.
      * destruct Hin as [<-|[]]. cbn. now rewrite E.
      * destruct Hin as [<-|Hin].
        -- cbn [no_dash]. rewrite E. cbn. apply IH. now left.
        -- apply IH. now right.
Qed.

Lemma parse_digits_range s : forall n,
  0 <= n <= maxUint64 -> 0 <= fst (parse_digits s n) <= maxUint64.
Proof.
  unfold maxUint64.
  induction s as [|c s IH]; intros n Hn; cbn [parse_digits]; [assumption|].
  unfold digit_of. destruct (_ && _) eqn:Hd; [|cbn; lia].
  apply andb_true_iff in Hd as [Hd1 Hd2].
  apply Z.leb_le in Hd1. apply Z.leb_le in Hd2.
  destruct (_ >=? _); [cbn; lia|].
  match goal with |- context [?a >? ?b] => destruct (Z.gtb_spec a b) end; [cbn; lia|].
  apply IH. unfold maxUint64 in *. lia.
Qed.

Lemma ParseInt_no_dash s : no_dash s = true -> 0 <= fst (ParseInt s) <= Int64.max.
Proof.
  unfold Int64.max. intros Hs. unfold ParseInt.
  destruct s as [|c rest]; [cbn; lia|].
  cbn [no_dash] in Hs. apply andb_true_iff in Hs as [Hc _].
  apply negb_true_iff in Hc. rewrite Hc. rewrite orb_false_r. cbn [negb andb].
  assert (Hun : forall s', 0 <= fst (ParseUint s') <= maxUint64).
  { intros s'. unfold ParseUint. destruct s'; [cbn; unfold maxUint64; lia|].
    apply parse_digits_range. unfold maxUint64. lia. }
  match goal with |- context [ParseUint ?s'] =>
    specialize (Hun s'); destruct (ParseUint s') as [un err] end.
  cbn [fst] in Hun.
  destruct err; cbn [fst]; try lia;
    destruct (Z.geb_spec un (2 ^ 63)); cbn [fst]; lia.
Qed.

(** X16: a Range header never yields a negative number.  The header is split
    at every '-', so no part reaches ParseInt with a sign: each part parses
    to a value between 0 and 2^63 - 1, and in both handlers start and end of
    the resolved range are non-negative for every object of logical size at
    least 1. *)
Theorem range_parts_nonnegative :
  forall (hdr : string),
    (forall i, 0 <= fst (ParseInt (nth i (Split (TrimPrefix hdr "bytes=") "-")
                                     EmptyString)) <= Int64.max) /\
    (forall L, 1 <= L <= Int64.max ->
       (0 <= range_start (xor_range L hdr) <= Int64.max /\
        0 <= range_end (xor_range L hdr) <= Int64.max) /\
       (0 <= range_start (ctr_range L hdr) <= Int64.max /\
        0 <= range_end (ctr_range L hdr) <= Int64.max)).
Proof.
  intros hdr.
  assert (Hparts : forall i,
    0 <= fst (ParseInt (nth i (Split (TrimPrefix hdr "bytes=") "-") EmptyString))
      <= Int64.max).
  { intros i. apply ParseInt_no_dash.
    destruct (nth_in_or_default i (Split (TrimPrefix hdr "bytes=") "-") EmptyString)
      as [Hin| ->]; [|reflexivity].
    now apply (Split_parts_no_dash (TrimPrefix hdr "bytes=")). }
  split; [assumption|].
  intros L HL.
  assert (Hsub : Int64.sub L 1 = L - 1)
    by (apply HttpFacts.sub_1; unfold Int64.min, Int64.max in *; lia).
  pose proof (Hparts 0%nat) as H0. pose proof (Hparts 1%nat) as H1.
  unfold xor_range, ctr_range. rewrite Hsub. unfold Int64.max in *.
  destruct (String.eqb hdr ""); [cbn; lia|].
  destruct (_ =? _)%nat; [|cbn; lia].
  cbn [range_start range_end fst snd].
  destruct (Z.ltb_spec (fst (ParseInt (nth 0 (Split (TrimPrefix hdr "bytes=") "-")
                                         EmptyString))) 0);
    destruct (_ || _); destruct (_ || _); lia.
Qed.

End Extra.

Lemma if_modified_since_witness :
  run (ServeXORFile sampleTime epochTime (example_server 1000 (fun _ => repeat 0 1000))
         {| URLPath := "/xor/k"; IfModifiedSince := "at-100"; Range := EmptyString;
            IfUnmodifiedSince := EmptyString |})
  = ([CallHeadObject "k"], WriteHeader StatusNotModified).
Proof.
  destruct (if_modified_since sampleTime epochTime
              (example_server 1000 (fun _ => repeat 0 1000))
              {| URLPath := "/xor/k"; IfModifiedSince := "at-100"; Range := EmptyString;
                 IfUnmodifiedSince := EmptyString |}
              "/xor/"
              {| ContentLength := 1000; ContentType := "application/octet-stream";
                 LastModified := 100 |})
    as (_ & H304 & _); [now left | reflexivity | discriminate |].
  apply (H304 100); [reflexivity | cbn; lia].
Defined.

Lemma if_unmodified_since_witness :
  run (ServeXORFile sampleTime epochTime (example_server 1000 (fun _ => repeat 0 1000))
         {| URLPath := "/xor/k"; IfModifiedSince := EmptyString; Range := EmptyString;
            IfUnmodifiedSince := "at-100" |})
  = ([CallHeadObject "k"; CallGetRangeObject "k" "bytes=0-999"],
     WriteHeader StatusPreconditionFailed).
Proof.
  destruct (if_unmodified_since sampleTime epochTime
              (example_server 1000 (fun _ => repeat 0 1000))
              {| URLPath := "/xor/k"; IfModifiedSince := EmptyString; Range := EmptyString;
                 IfUnmodifiedSince := "at-100" |})
    as [HX _]; [discriminate|].
  destruct (HX {| ContentLength := 1000; ContentType := "application/octet-stream";
                  LastModified := 100 |}
               {| Body := {| pending := [repeat 0 1000] |}; ETag := "etag";
                  gLastModified := 100 |}
               eq_refl eq_refl ltac:(vm_compute; reflexivity) eq_refl) as [_ H412].
  apply (H412 100); [reflexivity | cbn; lia].
Defined.

Lemma xor_serves_plaintext_range_witness :
  body (snd (run (ServeXORFile noTime epochTime (example_server 4 (fun _ => [12; 88]))
                    (get "/xor/k" "bytes=1-2"))))
  = Streamed (Copied [105; 33]).
Proof.
  rewrite (xor_serves_plaintext_range noTime epochTime
             (example_server 4 (fun _ => [12; 88])) (get "/xor/k" "bytes=1-2")
             [[72; 105]; [33; 10]]
             {| Xor.writer := [35; 12; 88; 97]; Xor.wkey := "key"; Xor.woffset := 4 |}
             {| ContentLength := 4; ContentType := "application/octet-stream";
                LastModified := 100 |}
             {| Body := {| pending := [[12; 88]] |}; ETag := "etag";
                gLastModified := 100 |});
    try reflexivity; try discriminate; unfold Int64.max; cbn; lia.
Defined.

Lemma ctr_serves_plaintext_range_witness :
  let stored := repeat 7 16 ++ Ctr.xor_keystream (fun c => c) (repeat 7 16) 0 (repeat 65 40) in
  let bytes_for := fun rng : string =>
    if String.eqb rng ivRange then firstn 16 stored
    else firstn 10 (skipn (16 + 21) stored) in
  body (snd (run (ServeCTRFile noTime epochTime (example_server 56 bytes_for)
                    (get "/ctr/k" "bytes=21-30"))))
  = Streamed (Copied (repeat 65 10)).
Proof.
  intros stored bytes_for.
  assert (Hserved :=
    proj2 (ctr_serves_plaintext_range noTime epochTime
             (example_server 56 bytes_for) (get "/ctr/k" "bytes=21-30")
             (repeat 7 16) [repeat 65 40]
             {| Ctr.wstream := Ctr.stream_at (fun c => c) (repeat 7 16) 0;
                Ctr.writer := repeat 7 16 |}
             {| ContentLength := 56; ContentType := "application/octet-stream";
                LastModified := 100 |}
             {| Body := {| pending := [firstn 16 stored] |}; ETag := "etag";
                gLastModified := 100 |}
             {| Body := {| pending := [firstn 10 (skipn (16 + 21) stored)] |};
                ETag := "etag"; gLastModified := 100 |}
             eq_refl
             ltac:(repeat constructor; unfold Ctr.is_byte; lia)
             eq_refl eq_refl
             ltac:(vm_compute; reflexivity)
             ltac:(vm_compute; discriminate)
             eq_refl
             ltac:(vm_compute; reflexivity)
             ltac:(vm_compute; reflexivity)
             ltac:(vm_compute; reflexivity)
             ltac:(vm_compute; reflexivity)
             ltac:(vm_compute; reflexivity)
             ltac:(vm_compute; reflexivity)
             eq_refl)).
  rewrite Hserved. vm_compute. reflexivity.
Defined.

Lemma xor_empty_key_faults_after_status_witness :
  let h := {| s3Client := example_store 4 (fun _ => [1; 2; 3; 4]);
              xorKey := EmptyString; cipherBlock := fun c => c |} in
  let resp := snd (run (ServeXORFile noTime epochTime h (get "/xor/k" EmptyString))) in
  body resp = Streamed (Panicked [] DivideByZero) /\
  (status resp = StatusOK \/ status resp = StatusPartialContent).
Proof.
  intros h.
  apply (xor_empty_key_faults_after_status noTime epochTime h (get "/xor/k" EmptyString)
           {| ContentLength := 4; ContentType := "application/octet-stream";
              LastModified := 100 |}
           {| Body := {| pending := [[1; 2; 3; 4]] |}; ETag := "etag";
              gLastModified := 100 |}
           [1; 2; 3; 4] []);
    try reflexivity; discriminate.
Defined.

Lemma ctr_ciphertext_range_witness :
  fst (run (ServeCTRFile noTime epochTime (example_server 1016 (fun _ => repeat 0 16))
              (get "/ctr/k" "bytes=20-29")))
  = [CallHeadObject "k"; CallGetRangeObject "k" ivRange;
     CallGetRangeObject "k" "bytes=36-45"].
Proof.
  exact (proj1 (proj2 (proj2
    (ctr_ciphertext_range noTime epochTime
       (example_server 1016 (fun _ => repeat 0 16)) (get "/ctr/k" "bytes=20-29")
       {| ContentLength := 1016; ContentType := "application/octet-stream";
          LastModified := 100 |}
       {| Body := {| pending := [repeat 0 16] |}; ETag := "etag";
          gLastModified := 100 |}
       (repeat 0 16)
       eq_refl
       ltac:(vm_compute; split; discriminate)
       eq_refl eq_refl eq_refl
       ltac:(vm_compute; reflexivity))))).
Defined.

End HttpExtra.

(** ** Object tags *)

Module TaggingFacts.
Import Tagging.

Lemma lookup_filter m k k' :
  lookup (filter (fun e => negb (String.eqb (fst e) k)) m) k'
  = if String.eqb k k' then None else lookup m k'.
Proof.
  induction m as [|[a v] m IH]; cbn [filter lookup fst].
  - now destruct (String.eqb k k').
  - destruct (String.eqb_spec a k) as [->|Hak]; cbn [negb].
    + rewrite IH. destruct (String.eqb_spec k k'); reflexivity.
    + cbn [lookup]. rewrite IH.
      destruct (String.eqb_spec a k') as [->|]; [|reflexivity].
      destruct (String.eqb_spec k k'); [congruence | reflexivity].
Qed.

Lemma lookup_store m k v k' :
  lookup (store m k v) k' = if String.eqb k k' then Some v else lookup m k'.
Proof.
  unfold store. cbn [lookup]. rewrite lookup_filter.
  now destruct (String.eqb k k').
Qed.

Lemma keys_store m k v :
  NoDup (map fst m) ->
  NoDup (map fst (store m k v)) /\
  forall k', In k' (map fst (store m k v)) <-> k' = k \/ In k' (map fst m).
Proof.
  intros Hnd. unfold store. cbn [map fst].
  assert (Hin : forall k', In k' (map fst (filter (fun e => negb (String.eqb (fst e) k)) m))
                           <-> k' <> k /\ In k' (map fst m)).
  { intros k'. rewrite !in_map_iff. split.
    - intros ([a v'] & <- & Hf). apply filter_In in Hf as [Hm Hneq]. cbn [fst] in *.
      split; [|exists (a, v'); auto].
      intros ->. rewrite String.eqb_refl in Hneq. discriminate.
    - intros (Hne & [a v'] & <- & Hm). exists (a, v'). split; [reflexivity|].
      apply filter_In. split; [assumption|]. cbn [fst] in *.
      destruct (String.eqb_spec a k); [congruence | reflexivity]. }
  split.
  - constructor.
    + rewrite Hin. tauto.
    + clear Hin. induction m as [|[a v'] m IH]; cbn [filter map fst]; [constructor|].
      inversion Hnd as [|? ? Hnotin Hnd']; subst.
      destruct (negb (String.eqb a k)); [|auto].
      cbn [map fst]. constructor; [|auto].
      intros Hc. apply Hnotin. apply in_map_iff in Hc as (e & He & Hf).
      apply filter_In in Hf as [Hm _]. apply in_map_iff. eauto.
  - intros k'. cbn [In]. rewrite Hin.
    destruct (String.eqb_spec k' k) as [->|]; [tauto|].
    split; [intros [E|[_ H]]; [now left; symmetry | now right] | intros [E|H]; [congruence|]].
    right. split; assumption.
Qed.

Lemma fold_store tagSet : forall m,
  NoDup (map fst m) ->
  let out := fold_left (fun out tag => store out (Key tag) (Value tag)) tagSet m in
  (forall k, lookup out k = match last_value tagSet k with
                            | Some v => Some v
                            | None => lookup m k
                            end) /\
  NoDup (map fst out) /\
  (forall k, In k (map fst out) <-> In k (map Key tagSet) \/ In k (map fst m)).
Proof.
  induction tagSet as [|tag rest IH]; intros m Hnd; cbn [fold_left last_value map].
  - cbn zeta. repeat split; auto; cbn [In]; tauto.
  - destruct (keys_store m (Key tag) (Value tag) Hnd) as [Hnd' Hkeys].
    destruct (IH (store m (Key tag) (Value tag)) Hnd') as (Hl & Hn & Hk).
    cbn zeta in *. split; [|split; [assumption|]].
    + intros k. rewrite Hl, lookup_store.
      destruct (last_value rest k); [reflexivity|].
      now destruct (String.eqb (Key tag) k).
    + intros k. rewrite Hk, Hkeys. cbn [In]. split; intros H; intuition congruence.
Qed.

(** X17: GetObjectTagging hands the store's error on unchanged and otherwise
    returns a map with one entry per distinct tag key, holding the value of
    the last tag with that key in the tag set; a key no tag carries is
    absent. *)
Theorem GetObjectTagging_last_wins :
  (forall err, GetObjectTagging (inl err) = inl err) /\
  (forall tagSet,
     exists out,
       GetObjectTagging (inr tagSet) = inr out /\
       (forall k, lookup out k = last_value tagSet k) /\
       NoDup (map fst out) /\
       (forall k, In k (map fst out) <-> In k (map Key tagSet))).
Proof.
  split; [reflexivity|].
  intros tagSet. eexists. split; [reflexivity|].
  destruct (fold_store tagSet [] (NoDup_nil _)) as (Hl & Hn & Hk). cbn zeta in *.
  split; [|split; [assumption|]].
  - intros k. rewrite Hl. cbn [lookup]. now destruct (last_value tagSet k).
  - intros k. rewrite Hk. cbn [map In]. tauto.
Qed.

End TaggingFacts.

(** ** Consecutive ranges *)

Module StreamExtra.

(** Without a carry a reader constructed at [o] applies the keystream of the
    original IV from position [o] on. *)
Lemma read_from_no_carry block iv o chunks buf :
  length iv = 16%nat -> Forall Ctr.is_byte iv -> 0 <= o -> buf <> [] ->
  Ctr.be_value (skipn 8 iv) + o / 16 < 2 ^ 64 ->
  Ctr.read_from block iv o chunks buf
  = Ok (Copied (Ctr.xor_keystream block iv (Z.to_nat o) (concat chunks))).
Proof.
  intros Hlen Hb Ho Hbuf Hnc.
  rewrite CtrFacts.read_from_at by assumption.
  rewrite CtrFacts.seek_counter_no_carry by assumption.
  rewrite CtrFacts.xor_keystream_shift. do 3 f_equal.
  rewrite (Z.div_mod o 16) at 3 by lia.
  pose proof (Z.div_pos o 16 Ho ltac:(lia)).
  pose proof (Z.mod_pos_bound o 16 ltac:(lia)).
  rewrite Z2Nat.inj_add, Z2Nat.inj_mul by lia. reflexivity.
Qed.

(** X18: consecutive ranges compose.  Reading the bytes d1 through a reader
    constructed at offset o and the following bytes d2 through a second
    reader constructed at o + |d1| gives, concatenated, what one reader
    constructed at o gives for d1 followed by d2, whatever the chunkings: for
    the repeating-key reader with a non-empty key and positions in the int64
    range, and for the counter-mode reader with a 16-byte IV whose low 64
    bits do not overflow up to the second offset. *)
Theorem consecutive_ranges_compose :
  forall (o : Z) (d1 d2 : list Z) (chunks1 chunks2 chunks : list (list Z))
         (buf : list Z),
    0 <= o ->
    concat chunks1 = d1 -> concat chunks2 = d2 -> concat chunks = d1 ++ d2 ->
    buf <> [] ->
    let o2 := o + Z.of_nat (length d1) in
    (forall key,
       key <> EmptyString ->
       o + Z.of_nat (length (d1 ++ d2)) <= Int64.max ->
       exists a b,
         copy_loop (calls chunks1) (Xor.NewXorReader {| pending := chunks1 |} key o) buf []
         = Copied a /\
         copy_loop (calls chunks2) (Xor.NewXorReader {| pending := chunks2 |} key o2) buf []
         = Copied b /\
         copy_loop (calls chunks) (Xor.NewXorReader {| pending := chunks |} key o) buf []
         = Copied (a ++ b)) /\
    (forall block iv,
       length iv = 16%nat -> Forall Ctr.is_byte iv ->
       Ctr.be_value (skipn 8 iv) + o2 / 16 < 2 ^ 64 ->
       exists a b,
         Ctr.read_from block iv o chunks1 buf = Ok (Copied a) /\
         Ctr.read_from block iv o2 chunks2 buf = Ok (Copied b) /\
         Ctr.read_from block iv o chunks buf = Ok (Copied (a ++ b))).
Proof.
  intros o d1 d2 chunks1 chunks2 chunks buf Ho H1 H2 H12 Hbuf o2. split.
  - intros key Hkey Hmax. rewrite length_app in Hmax.
    rewrite !XorFacts.copy_xorReader by (rewrite ?H1, ?H2, ?H12, ?length_app; subst o2;
                                         trivial; lia).
    rewrite H1, H2, H12. do 2 eexists. split; [reflexivity|]. split; [reflexivity|].
    cbn [app]. now rewrite XorFacts.xor_stream_app.
  - intros block iv Hlen Hb Hnc.
    assert (Hle : o / 16 <= o2 / 16) by (apply Z.div_le_mono; subst o2; lia).
    rewrite !read_from_no_carry by (subst o2; trivial; lia).
    rewrite H1, H2, H12. do 2 eexists. split; [reflexivity|]. split; [reflexivity|].
    rewrite CtrFacts.xor_keystream_app. do 3 f_equal.
    subst o2. rewrite Z2Nat.inj_add, Nat2Z.id by lia. reflexivity.
Qed.

Lemma consecutive_ranges_compose_witness :
  exists a b,
    Ctr.read_from (fun c => c) (repeat 7 16) 10 [[1; 2; 3]; [4; 5; 6; 7; 8]] [0; 0]
    = Ok (Copied a) /\
    Ctr.read_from (fun c => c) (repeat 7 16) (10 + Z.of_nat (length [1; 2; 3; 4; 5; 6; 7; 8]))
      [[9; 10; 11]] [0; 0]
    = Ok (Copied b) /\
    Ctr.read_from (fun c => c) (repeat 7 16) 10 [[1; 2; 3; 4; 5; 6; 7; 8; 9; 10; 11]] [0; 0]
    = Ok (Copied (a ++ b)).
Proof.
  apply (proj2 (consecutive_ranges_compose 10 [1; 2; 3; 4; 5; 6; 7; 8] [9; 10; 11]
                  [[1; 2; 3]; [4; 5; 6; 7; 8]] [[9; 10; 11]]
                  [[1; 2; 3; 4; 5; 6; 7; 8; 9; 10; 11]] [0; 0]
                  ltac:(lia) eq_refl eq_refl eq_refl ltac:(discriminate))
          (fun c => c) (repeat 7 16)).
  - reflexivity.
  - repeat constructor; unfold Ctr.is_byte; lia.
  - vm_compute. reflexivity.
Defined.

End StreamExtra.

(** ** The handlers: failures of the store, objects too small to serve *)

Module HttpFailures.
Import Http.

Section Failures.

Variable ParseTime : string -> option Z.
Variable FormatTime : Z -> string.

Ltac unfold_run :=
  unfold run, ServeXORFile, ServeCTRFile, hbind, callHeadObject, callGetRangeObject,
    guard, respond, hret; cbn [app].

(** X19: failures of the store.  On both routes a missing object is answered
    404 without a body and any other failure of the metadata fetch 500 with
    the error's text, after that one call.  On the counter-mode route a failed
    IV fetch, or an IV body of fewer than 16 bytes, is answered 500 before the
    Range header is looked at and without a body fetch.  A failed body fetch
    is answered 500 with the error's text. *)
Theorem store_failures :
  forall (h : HTTPFileServer) (r : Request),
    let xkey := TrimPrefix (URLPath r) "/xor/" in
    let ckey := TrimPrefix (URLPath r) "/ctr/" in
    let x := run (ServeXORFile ParseTime FormatTime h r) in
    let c := run (ServeCTRFile ParseTime FormatTime h r) in
    let failure := fun err => http_Error (error_text err) StatusInternalServerError in
    (HeadObject (s3Client h) xkey = inl NotFound ->
       x = ([CallHeadObject xkey], WriteHeader StatusNotFound)) /\
    (forall msg, HeadObject (s3Client h) xkey = inl (OtherError msg) ->
       x = ([CallHeadObject xkey], failure (OtherError msg))) /\
    (forall headObj err,
       HeadObject (s3Client h) xkey = inr headObj ->
       ifModifiedSince_check ParseTime r headObj = None ->
       let rg := xor_range (ContentLength headObj) (Range r) in
       let body := ("bytes=" ++ fmt_d (range_start rg) ++ "-"
                      ++ fmt_d (range_end rg))%string in
       range_start rg < range_end rg ->
       GetRangeObject (s3Client h) xkey body = inl err ->
       x = ([CallHeadObject xkey; CallGetRangeObject xkey body], failure err)) /\
    (HeadObject (s3Client h) ckey = inl NotFound ->
       c = ([CallHeadObject ckey], WriteHeader StatusNotFound)) /\
    (forall msg, HeadObject (s3Client h) ckey = inl (OtherError msg) ->
       c = ([CallHeadObject ckey], failure (OtherError msg))) /\
    (forall headObj err,
       HeadObject (s3Client h) ckey = inr headObj ->
       ifModifiedSince_check ParseTime r headObj = None ->
       GetRangeObject (s3Client h) ckey ivRange = inl err ->
       c = ([CallHeadObject ckey; CallGetRangeObject ckey ivRange], failure err)) /\
    (forall headObj ivObj,
       HeadObject (s3Client h) ckey = inr headObj ->
       ifModifiedSince_check ParseTime r headObj = None ->
       GetRangeObject (s3Client h) ckey ivRange = inr ivObj ->
       (length (concat (pending (Body ivObj))) < 16)%nat ->
       c = ([CallHeadObject ckey; CallGetRangeObject ckey ivRange],
            http_Error "failed to read iv" StatusInternalServerError)) /\
    (forall headObj ivObj iv err,
       HeadObject (s3Client h) ckey = inr headObj ->
       ifModifiedSince_check ParseTime r headObj = None ->
       GetRangeObject (s3Client h) ckey ivRange = inr ivObj ->
       ReadFull (Body ivObj) 16 = Some iv ->
       let rg := ctr_range (Int64.sub (ContentLength headObj) Ctr.BlockSize) (Range r) in
       let body := ("bytes=" ++ fmt_d (Int64.add (range_start rg) Ctr.BlockSize) ++ "-"
                      ++ fmt_d (Int64.add (range_end rg) Ctr.BlockSize))%string in
       range_start rg < range_end rg ->
       GetRangeObject (s3Client h) ckey body = inl err ->
       c = ([CallHeadObject ckey; CallGetRangeObject ckey ivRange;
             CallGetRangeObject ckey body], failure err)).
Proof.
  intros h r xkey ckey x c failure.
  split; [intros Hh; subst x; unfold_run; fold xkey; now rewrite Hh|].
  split; [intros msg Hh; subst x; unfold_run; fold xkey; now rewrite Hh|].
  split.
  { intros headObj err Hhead Hims rg body Hlt Hget. subst x.
    rewrite (HttpFacts.ServeXORFile_resolved ParseTime FormatTime h r headObj Hhead Hims).
    fold xkey rg body. cbn zeta.
    destruct (Z.geb_spec (range_start rg) (range_end rg)); [lia|].
    now rewrite Hget. }
  split; [intros Hh; subst c; unfold_run; fold ckey; now rewrite Hh|].
  split; [intros msg Hh; subst c; unfold_run; fold ckey; now rewrite Hh|].
  split.
  { intros headObj err Hhead Hims Hiv. subst c. unfold_run. fold ckey.
    rewrite Hhead, Hims.
    change ("bytes=0-" ++ fmt_d (Ctr.BlockSize - 1))%string with ivRange.
    now rewrite Hiv. }
  split.
  { intros headObj ivObj Hhead Hims Hiv Hshort. subst c. unfold_run. fold ckey.
    rewrite Hhead, Hims.
    change ("bytes=0-" ++ fmt_d (Ctr.BlockSize - 1))%string with ivRange.
    change (Z.to_nat Ctr.BlockSize) with 16%nat.
    rewrite Hiv. unfold ReadFull.
    destruct (Nat.ltb_spec (length (concat (pending (Body ivObj)))) 16); [reflexivity | lia]. }
  intros headObj ivObj iv err Hhead Hims Hiv Hread rg body Hlt Hget. subst c.
  rewrite (HttpFacts.ServeCTRFile_resolved ParseTime FormatTime h r headObj ivObj iv
             Hhead Hims Hiv Hread).
  fold ckey rg body. cbn zeta.
  destruct (Z.geb_spec (range_start rg) (range_end rg)); [lia|].
  now rewrite Hget.
Qed.

(** X20: objects too small to serve.  On the repeating-key route an empty
    object, and on the counter-mode route an object of logical size 0 or 1
    (stored size 16 or 17), is answered 416 for every Range header, absent or
    not, once the request reaches the range check. *)
Theorem small_objects_unsatisfiable :
  forall (h : HTTPFileServer) (r : Request),
    (forall headObj,
       let key := TrimPrefix (URLPath r) "/xor/" in
       HeadObject (s3Client h) key = inr headObj ->
       ContentLength headObj = 0 ->
       ifModifiedSince_check ParseTime r headObj = None ->
       run (ServeXORFile ParseTime FormatTime h r) = ([CallHeadObject key], unsatisfiable)) /\
    (forall headObj ivObj iv,
       let key := TrimPrefix (URLPath r) "/ctr/" in
       HeadObject (s3Client h) key = inr headObj ->
       16 <= ContentLength headObj <= 17 ->
       ifModifiedSince_check ParseTime r headObj = None ->
       GetRangeObject (s3Client h) key ivRange = inr ivObj ->
       ReadFull (Body ivObj) 16 = Some iv ->
       run (ServeCTRFile ParseTime FormatTime h r)
       = ([CallHeadObject key; CallGetRangeObject key ivRange], unsatisfiable)).
Proof.
  intros h r. split.
  - intros headObj key Hhead Hsize Hims.
    rewrite (HttpFacts.ServeXORFile_resolved ParseTime FormatTime h r headObj Hhead Hims).
    fold key. cbn zeta.
    pose proof (proj1 (HttpFacts.range_start_nonneg (ContentLength headObj) (Range r)))
      as Hnn.
    assert (Hend : range_end (xor_range (ContentLength headObj) (Range r)) <= 0).
    { rewrite Hsize. unfold xor_range. change (Int64.sub 0 1) with (-1).
      destruct (String.eqb (Range r) ""); [cbn; lia|].
      destruct (_ =? _)%nat; [|cbn; lia].
      cbn [range_end fst snd].
      match goal with |- context [(?v =? 0) || (?v >? 0)] =>
        destruct (Z.eqb_spec v 0); destruct (Z.gtb_spec v 0); cbn [orb]; lia
      end. }
    destruct (Z.geb_spec (range_start (xor_range (ContentLength headObj) (Range r)))
                (range_end (xor_range (ContentLength headObj) (Range r))));
      [reflexivity | lia].
  - intros headObj ivObj iv key Hhead Hsize Hims Hiv Hread.
    rewrite (HttpFacts.ServeCTRFile_resolved ParseTime FormatTime h r headObj ivObj iv
               Hhead Hims Hiv Hread).
    fold key. cbn zeta.
    set (L := Int64.sub (ContentLength headObj) Ctr.BlockSize).
    assert (HL : 0 <= L <= 1).
    { subst L. unfold Ctr.BlockSize. rewrite Int64Facts.sub_id;
        unfold Int64.in_range, Int64.min, Int64.max; lia. }
    pose proof (proj2 (HttpFacts.range_start_nonneg L (Range r))) as Hnn.
    assert (Hend : range_end (ctr_range L (Range r)) <= 0).
    { unfold ctr_range.
      rewrite (Int64Facts.sub_id L 1)
        by (unfold Int64.in_range, Int64.min, Int64.max; lia).
      destruct (String.eqb (Range r) ""); [cbn; lia|].
      destruct (_ =? _)%nat; [|cbn; lia].
      cbn [range_end fst snd].
      match goal with |- context [(?v =? 0) || (?v >=? L)] =>
        destruct (Z.eqb_spec v 0); destruct (Z.geb_spec v L); cbn [orb]; lia
      end. }
    destruct (Z.geb_spec (range_start (ctr_range L (Range r)))
                (range_end (ctr_range L (Range r)))); [reflexivity | lia].
Qed.

End Failures.

Lemma store_failures_witness :
  run (ServeCTRFile noTime epochTime (example_server 1016 (fun _ => repeat 0 7))
         (get "/ctr/k" "bytes=0-9"))
  = ([CallHeadObject "k"; CallGetRangeObject "k" ivRange],
     http_Error "failed to read iv" StatusInternalServerError).
Proof.
  apply (store_failures noTime epochTime (example_server 1016 (fun _ => repeat 0 7))
           (get "/ctr/k" "bytes=0-9"))
    with (headObj := {| ContentLength := 1016; ContentType := "application/octet-stream";
                        LastModified := 100 |})
         (ivObj := {| Body := {| pending := [repeat 0 7] |}; ETag := "etag";
                      gLastModified := 100 |});
    try reflexivity.
  cbn. lia.
Defined.

Lemma small_objects_unsatisfiable_witness :
  run (ServeCTRFile noTime epochTime (example_server 17 (fun _ => repeat 0 16))
         (get "/ctr/k" EmptyString))
  = ([CallHeadObject "k"; CallGetRangeObject "k" ivRange], unsatisfiable).
Proof.
  apply (proj2 (small_objects_unsatisfiable noTime epochTime
                  (example_server 17 (fun _ => repeat 0 16)) (get "/ctr/k" EmptyString))
           {| ContentLength := 17; ContentType := "application/octet-stream";
              LastModified := 100 |}
           {| Body := {| pending := [repeat 0 16] |}; ETag := "etag";
              gLastModified := 100 |}
           (repeat 0 16));
    try reflexivity.
  cbn. lia.
Defined.

End HttpFailures.
